(** * Segment normalisation and transcript serialisation

    A shallow embedding of [src/local_asr/transcribe_server.py]:
    [_build_segments], [_segments_to_srt] and [_segments_to_response].

    Python values are modelled as follows.
    - [float] is IEEE binary64: Rocq's primitive [float].
    - [int] is unbounded: [Z].
    - [str] is a sequence of Unicode code points: [list N].
    - [None] (and a key that [dict.get] does not find) is [None : option _].
    - a raised exception is the [Raise] branch of [result]. *)

From Stdlib Require Import ZArith NArith List String Ascii Bool Lia.
From Stdlib Require Import Floats.PrimFloat Floats.SpecFloat Floats.FloatOps.
From Stdlib Require Import Floats.FloatAxioms.
From Stdlib Require Import Uint63.
Import ListNotations.

Local Open Scope Z_scope.

(** ** Python strings *)

Module PyStr.

Definition pystr : Type := list N.

(** A literal whose characters are all ASCII, read as code points. *)
Definition lit (s : string) : pystr :=
  List.map N_of_ascii (list_ascii_of_string s).

Definition space : N := 32%N.
Definition newline : N := 10%N.

(** [str.isspace] on one code point: the characters CPython's
    [_PyUnicode_IsWhitespace] accepts. *)
Definition isspace (c : N) : bool :=
  (((9 <=? c) && (c <=? 13)) || ((28 <=? c) && (c <=? 32))
   || (c =? 133) || (c =? 160) || (c =? 5760)
   || ((8192 <=? c) && (c <=? 8202))
   || (c =? 8232) || (c =? 8233) || (c =? 8239) || (c =? 8287)
   || (c =? 12288))%N.

Fixpoint lstrip (s : pystr) : pystr :=
  match s with
  | [] => []
  | c :: s' => if isspace c then lstrip s' else s
  end.

Definition rstrip (s : pystr) : pystr := rev (lstrip (rev s)).

(** [s.strip()] with no argument. *)
Definition strip (s : pystr) : pystr := rstrip (lstrip s).

(** [sep.join(xs)]. *)
Definition join (sep : pystr) (xs : list pystr) : pystr :=
  match xs with
  | [] => []
  | x :: rest => x ++ List.concat (List.map (fun y => sep ++ y) rest)
  end.

(** Truthiness of a string: [bool(s)]. *)
Definition truthy (s : pystr) : bool :=
  match s with [] => false | _ :: _ => true end.

(** Decimal digits of a non-negative integer. *)
Fixpoint digits_of_uint (u : Decimal.uint) : pystr :=
  match u with
  | Decimal.Nil => []
  | Decimal.D0 u' => 48%N :: digits_of_uint u'
  | Decimal.D1 u' => 49%N :: digits_of_uint u'
  | Decimal.D2 u' => 50%N :: digits_of_uint u'
  | Decimal.D3 u' => 51%N :: digits_of_uint u'
  | Decimal.D4 u' => 52%N :: digits_of_uint u'
  | Decimal.D5 u' => 53%N :: digits_of_uint u'
  | Decimal.D6 u' => 54%N :: digits_of_uint u'
  | Decimal.D7 u' => 55%N :: digits_of_uint u'
  | Decimal.D8 u' => 56%N :: digits_of_uint u'
  | Decimal.D9 u' => 57%N :: digits_of_uint u'
  end.

Definition digits (n : Z) : pystr := digits_of_uint (N.to_uint (Z.to_N n)).

Definition zfill (width : nat) (s : pystr) : pystr :=
  repeat 48%N (width - List.length s) ++ s.

(** ["%0<width>d" % n]: the sign counts towards the width. *)
Definition fmt_0d (width : nat) (n : Z) : pystr :=
  if n <? 0 then 45%N :: zfill (width - 1) (digits (- n))
  else zfill width (digits n).

(** [str(n)] for an integer. *)
Definition str_of_int (n : Z) : pystr :=
  if n <? 0 then 45%N :: digits (- n) else digits n.

End PyStr.

Import PyStr.

(** ** Exceptions *)

Inductive exn : Type :=
| RuntimeError (msg : string)
| AttributeError
| ValueError
| OverflowError.

Inductive result (A : Type) : Type :=
| Return (a : A)
| Raise (e : exn).

Arguments Return {A} a.
Arguments Raise {A} e.

Definition bind {A B : Type} (m : result A) (k : A -> result B) : result B :=
  match m with
  | Return a => k a
  | Raise e => Raise e
  end.

Notation "x <- m ;; k" := (bind m (fun x => k))
  (at level 61, m at next level, right associativity).

(** A [for] loop whose body updates the loop state or raises. *)
Fixpoint for_each {S A : Type} (body : S -> A -> result S)
    (xs : list A) (st : S) : result S :=
  match xs with
  | [] => Return st
  | x :: xs' => st' <- body st x ;; for_each body xs' st'
  end.

(** [x or y] on optional strings: [x] when it is truthy, else [y]. *)
Definition py_or (x y : option pystr) : option pystr :=
  match x with
  | Some s => if truthy s then x else y
  | None => y
  end.

(** [v.strip()]: [None] has no such method. *)
Definition py_strip (v : option pystr) : result pystr :=
  match v with
  | Some s => Return (strip s)
  | None => Raise AttributeError
  end.

(** ** The data of [_build_segments] *)

(** One element of [result["chunks"]]: the keys ["timestamp"] (a pair whose
    components may be [None]) and ["text"], each read with [dict.get]. *)
Record chunk : Type := {
  chunk_timestamp : option (option float * option float);
  chunk_text : option pystr
}.

(** What [pipe] returns, as far as [_build_segments] reads it. *)
Record pipe_result : Type := {
  chunks : option (list chunk)
}.

(** One element of [items]: the keys ["id"], ["start"], ["end"], ["text"]. *)
Record item : Type := {
  item_id : Z;
  item_start : float;
  item_end : float;
  item_text : pystr
}.

(** The two messages of lines 37 and 72, as UTF-8 text. *)
Definition msg_no_segments : string :=
  "Không tìm thấy segments nào, có thể file quá ngắn hoặc không có tiếng.".

Definition msg_no_subtitles : string :=
  "Không tạo được phụ đề nào từ file đầu vào.".

(** The spec's names for the two failures. *)
Definition MissingUpstreamOutputError : exn := RuntimeError msg_no_segments.
Definition EmptyTranscriptError : exn := RuntimeError msg_no_subtitles.

(** [float(x)] applied to a float returns it unchanged. *)
Definition py_float (x : float) : float := x.

(** ** [_build_segments] *)

(** Lines 44-69: one iteration, on the loop state [(items, index)].
    [continue] leaves the state as it is. *)
Definition loop_body (st : list item * Z) (seg : chunk)
    : result (list item * Z) :=
  let '(items, index) := st in
  match chunk_timestamp seg with
  | None => Return st
  | Some (start_sec, end_sec) =>
      match start_sec with
      | None => Return st
      | Some start_sec =>
          let end_sec :=
            match end_sec with
            | None => (start_sec + 2.0)%float
            | Some e => e
            end in
          text <- py_strip (py_or (chunk_text seg) (Some [])) ;;
          if truthy text then
            Return (items ++ [ {| item_id := index;
                                  item_start := py_float start_sec;
                                  item_end := py_float end_sec;
                                  item_text := text |} ],
                    index + 1)
          else Return st
      end
  end.

(** Lines 40-74: the loop over the fragment collection and the final
    emptiness test (the spec's [normalize]). *)
Definition normalize (segments : list chunk) : result (list item) :=
  st <- for_each loop_body segments ([], 1) ;;
  let '(items, _) := st in
  match items with
  | [] => Raise (RuntimeError msg_no_subtitles)
  | _ :: _ => Return items
  end.

Section BuildSegments.

(** The recognition pipeline, an external collaborator: [pipe path] is the
    result that the call on line 32 returned. A call that raises is outside
    this model; lines 31-74 have no handler, so its exception would leave
    [_build_segments] unchanged. *)
Variable pipe : pystr -> pipe_result.

(** Lines 31-74. *)
Definition _build_segments (input_path : pystr) : result (list item) :=
  let result := pipe input_path in
  match chunks result with
  | None => Raise (RuntimeError msg_no_segments)
  | Some segments => normalize segments
  end.

End BuildSegments.

(** ** [datetime.timedelta] *)

Module Timedelta.

(** A [timedelta] is normalised to days, seconds in [0, 86400) and
    microseconds in [0, 10^6); these are the quotients and remainders of
    its total number of microseconds, which represents it here. *)
Definition timedelta : Type := Z.

Definition days (td : timedelta) : Z := td / 86400000000.
Definition seconds (td : timedelta) : Z := (td / 1000000) mod 86400.
Definition microseconds (td : timedelta) : Z := td mod 1000000.

(** The float of an integer below 2^53 in magnitude. *)
Definition float_of_int (n : Z) : float :=
  if n <? 0 then (- of_uint63 (Uint63.of_Z (- n)))%float
  else of_uint63 (Uint63.of_Z n).

(** C [modf] and the conversion of the integral part to an [int], which
    raises on a NaN or an infinity. A float [m * 2^e] with [0 <= e] is an
    integer. *)
Definition modf_int (x : float) : result (float * Z) :=
  match Prim2SF x with
  | S754_nan => Raise ValueError
  | S754_infinity _ => Raise OverflowError
  | S754_zero _ => Return (x, 0)
  | S754_finite s m e =>
      let mag := Z.shiftl (Z.pos m) e in
      let intpart := if s then - mag else mag in
      if 0 <=? e then Return (0%float, intpart)
      else Return ((x - float_of_int intpart)%float, intpart)
  end.

(** The nearest integer to a finite float, ties to the even one. *)
Definition round_half_even (d : float) : Z :=
  match Prim2SF d with
  | S754_finite s m e =>
      let mag :=
        if 0 <=? e then Z.shiftl (Z.pos m) e
        else
          let den := 2 ^ (- e) in
          let q := Z.pos m / den in
          let r2 := 2 * (Z.pos m mod den) in
          if r2 <? den then q
          else if den <? r2 then q + 1
          else if Z.even q then q else q + 1 in
      if s then - mag else mag
  | _ => 0
  end.

(** [timedelta(seconds=x)] for a float [x]: the whole seconds are exact,
    the fraction is scaled to microseconds in float arithmetic and rounded
    half to even; more than 999999999 days either way overflows. *)
Definition of_seconds (x : float) : result timedelta :=
  p <- modf_int x ;;
  let '(fracpart, intpart) := p in
  let us := intpart * 1000000 + round_half_even (1000000 * fracpart)%float in
  if (-999999999 <=? days us) && (days us <=? 999999999) then Return us
  else Raise OverflowError.

End Timedelta.

(** ** The [srt] package *)

Module Srt.

Import Timedelta.

(** Modelled from the spec: the [srt] package ([srt.Subtitle],
    [srt.compose]), imported on line 11, is not under src/. Sections 4.2
    and 6 of the spec give what it renders: one block per subtitle in list
    order; each block is the sequence number line (re-numbered 1..N in
    output order), the timing line [HH:MM:SS,mmm --> HH:MM:SS,mmm] with
    zero-padded fields and the milliseconds cut to three digits, the text
    line, and a blank line. *)
Record Subtitle : Type := {
  index : Z;
  start : timedelta;
  end_ : timedelta;
  content : pystr
}.

(** Modelled from the spec: the [HH:MM:SS,mmm] field of a timing line
    (section 4.2), hours not wrapped at a day. *)
Definition timedelta_to_srt_timestamp (td : timedelta) : pystr :=
  let hrs := seconds td / 3600 + days td * 24 in
  let secs_remainder := seconds td mod 3600 in
  let mins := secs_remainder / 60 in
  let secs := secs_remainder mod 60 in
  let msecs := microseconds td / 1000 in
  fmt_0d 2 hrs ++ lit ":" ++ fmt_0d 2 mins ++ lit ":" ++ fmt_0d 2 secs
    ++ lit "," ++ fmt_0d 3 msecs.

(** Modelled from the spec: one block (section 4.2 and the SubRip output
    format of section 6). *)
Definition to_srt (sub : Subtitle) : pystr :=
  str_of_int (index sub) ++ [newline]
    ++ timedelta_to_srt_timestamp (start sub) ++ lit " --> "
    ++ timedelta_to_srt_timestamp (end_ sub) ++ [newline]
    ++ content sub ++ [newline] ++ [newline].

(** Modelled from the spec: the re-numbering 1..N in output order. *)
Fixpoint reindex (start_index : Z) (subs : list Subtitle) : list Subtitle :=
  match subs with
  | [] => []
  | sub :: rest =>
      {| index := start_index; start := start sub; end_ := end_ sub;
         content := content sub |} :: reindex (start_index + 1) rest
  end.

(** Modelled from the spec: [srt.compose], the blocks in list order. *)
Definition compose (subs : list Subtitle) : pystr :=
  List.concat (List.map to_srt (reindex 1 subs)).

End Srt.

(** ** [_segments_to_srt], [_run_transcription], [_segments_to_response] *)

(** Lines 77-83. [int], [float] and [str] are applied to an [int], a
    [float] and a [str], which they return unchanged. *)
Definition _segments_to_srt (segments : list item) : result pystr :=
  subs <- for_each
            (fun subs seg =>
               start <- Timedelta.of_seconds (py_float (item_start seg)) ;;
               end_ <- Timedelta.of_seconds (py_float (item_end seg)) ;;
               Return (subs ++ [ {| Srt.index := item_id seg;
                                    Srt.start := start;
                                    Srt.end_ := end_;
                                    Srt.content := item_text seg |} ]))
            segments [] ;;
  Return (Srt.compose subs).

(** Lines 86-88. *)
Definition _run_transcription (pipe : pystr -> pipe_result)
    (input_path : pystr) : result pystr :=
  segments <- _build_segments pipe input_path ;;
  _segments_to_srt segments.

(** The dictionary that [_segments_to_response] returns. *)
Record response : Type := {
  response_text : pystr;
  response_segments : list item
}.

(** Lines 91-96. *)
Definition _segments_to_response (segments : list item) : response :=
  let full_text :=
    strip (join (lit " ") (List.map (fun seg => strip (item_text seg)) segments)) in
  {| response_text := full_text; response_segments := segments |}.

(** ** The per-fragment rules of section 4.1, stated on one fragment *)

Definition chunk_start (f : chunk) : option float :=
  match chunk_timestamp f with
  | Some (s, _) => s
  | None => None
  end.

Definition chunk_end (f : chunk) : option float :=
  match chunk_timestamp f with
  | Some (_, e) => e
  | None => None
  end.

(** The text of a fragment, an absent or null text read as empty. *)
Definition text_or_empty (f : chunk) : pystr :=
  match chunk_text f with
  | Some t => t
  | None => []
  end.

Definition trimmed_text (f : chunk) : pystr := strip (text_or_empty f).

(** The three reasons to drop a fragment. *)
Definition missing_timing (f : chunk) : bool :=
  match chunk_timestamp f with None => true | Some _ => false end.

Definition missing_start (f : chunk) : bool :=
  match chunk_start f with None => true | Some _ => false end.

Definition empty_trimmed_text (f : chunk) : bool :=
  match trimmed_text f with [] => true | _ :: _ => false end.

Definition survives (f : chunk) : bool :=
  negb (missing_timing f) && negb (missing_start f)
    && negb (empty_trimmed_text f).

(** The end time of a fragment that starts at [s]. *)
Definition resolved_end (s : float) (e : option float) : float :=
  match e with
  | Some e => e
  | None => (s + 2.0)%float
  end.

(** The segment that a surviving fragment yields under the id [i]. *)
Definition segment_of (i : Z) (f : chunk) : option item :=
  match chunk_start f with
  | Some s =>
      if empty_trimmed_text f then None
      else Some {| item_id := i;
                   item_start := s;
                   item_end := resolved_end s (chunk_end f);
                   item_text := trimmed_text f |}
  | None => None
  end.

(** The segments of a fragment list, numbered from [i]. *)
Fixpoint emit_all (i : Z) (fs : list chunk) : list item :=
  match fs with
  | [] => []
  | f :: rest =>
      match segment_of i f with
      | Some it => it :: emit_all (i + 1) rest
      | None => emit_all i rest
      end
  end.

(** A segment carries the timing and the trimmed text of a fragment. *)
Definition emitted_from (f : chunk) (it : item) : Prop :=
  chunk_start f = Some (item_start it)
  /\ item_end it = resolved_end (item_start it) (chunk_end f)
  /\ item_text it = trimmed_text f.

(** The ids [first], [first + 1], ..., one per element counted by [n]. *)
Fixpoint ids_from (first : Z) (n : nat) : list Z :=
  match n with
  | O => []
  | S n' => first :: ids_from (first + 1) n'
  end.

(** A string made of whitespace only. *)
Definition all_space (s : pystr) : bool := forallb isspace s.

(** Section 4.2 in its own words: the texts, a single space between
    consecutive ones. *)
Fixpoint joined_with_space (xs : list pystr) : pystr :=
  match xs with
  | [] => []
  | x :: rest =>
      match rest with
      | [] => x
      | _ :: _ => x ++ [space] ++ joined_with_space rest
      end
  end.

(** Segment order by time, as the float comparison [start <= end]. *)
Definition end_not_before_start (it : item) : bool :=
  (item_start it <=? item_end it)%float.

(** ** Concrete inputs *)

Definition fragment (s e : option float) (t : option pystr) : chunk :=
  {| chunk_timestamp := Some (s, e); chunk_text := t |}.

(** A pipeline that returns the same result for every path. *)
Definition stub_pipe (r : pipe_result) : pystr -> pipe_result := fun _ => r.

(** The scenario of section 8. *)
Definition scenario_fragments : list chunk :=
  [ fragment (Some 0%float) (Some 2.5%float) (Some (lit " Hello "));
    fragment (Some 2.5%float) None (Some (lit "world")) ].

Definition scenario_segments : list item :=
  [ {| item_id := 1; item_start := 0%float; item_end := 2.5%float;
       item_text := lit "Hello" |};
    {| item_id := 2; item_start := 2.5%float; item_end := 4.5%float;
       item_text := lit "world" |} ].

Definition scenario_srt : pystr :=
  lit "1
00:00:00,000 --> 00:00:02,500
Hello

2
00:00:02,500 --> 00:00:04,500
world

".

(** The all-dropped scenario of section 8. *)
Definition all_dropped : list chunk :=
  [ fragment None None (Some (lit "x")) ].

(** A fragment whose end precedes its start. *)
Definition inverted_fragment : chunk :=
  fragment (Some 5%float) (Some 1%float) (Some (lit "x")).

(** Fragments that break one rule each. *)
Definition untimed_fragment : chunk :=
  {| chunk_timestamp := None; chunk_text := Some (lit "x") |}.

Definition blank_fragment : chunk :=
  fragment None (Some 1%float) (Some (lit "  ")).

Definition null_text_fragment : chunk :=
  fragment (Some 1%float) (Some 2%float) None.

(** ** Segments read back as fragments, and renumbering *)

(** A segment as a fragment with the same timing and text. *)
Definition chunk_of_item (it : item) : chunk :=
  {| chunk_timestamp := Some (Some (item_start it), Some (item_end it));
     chunk_text := Some (item_text it) |}.

(** A segment with its id moved by [k]. *)
Definition renumber (k : Z) (it : item) : item :=
  {| item_id := item_id it + k;
     item_start := item_start it;
     item_end := item_end it;
     item_text := item_text it |}.

(** A text that [strip] leaves as it is and that is not empty. *)
Definition clean (s : pystr) : Prop := s <> [] /\ strip s = s.

(** A text with a first and a last character, neither of them whitespace. *)
Definition trimmed (s : pystr) : Prop :=
  (exists c t, s = c :: t /\ isspace c = false)
  /\ (exists t c, s = t ++ [c] /\ isspace c = false).

(** The loop body of [_segments_to_srt] (lines 80-82), by itself. *)
Definition srt_body (subs : list Srt.Subtitle) (seg : item)
    : result (list Srt.Subtitle) :=
  start <- Timedelta.of_seconds (py_float (item_start seg)) ;;
  end_ <- Timedelta.of_seconds (py_float (item_end seg)) ;;
  Return (subs ++ [ {| Srt.index := item_id seg;
                       Srt.start := start;
                       Srt.end_ := end_;
                       Srt.content := item_text seg |} ]).

(** A float that is a NaN or an infinity. *)
Definition not_finite (x : float) : bool :=
  match Prim2SF x with
  | S754_nan | S754_infinity _ => true
  | _ => false
  end.

(** ** The endpoints *)

Definition bytes : Type := list Byte.byte.

(** The upload as the endpoints read it: [file.filename] and what
    [file.file.read()] returns. *)
Record UploadFile : Type := {
  filename : option pystr;
  file_read : bytes
}.

(** What an endpoint raises: an [HTTPException], or an exception that it
    does not catch. *)
Inductive endpoint_exn : Type :=
| HTTPException (status_code : Z) (detail : string)
| Propagated (e : exn).

(** The [Response] of line 132. *)
Record Response : Type := {
  body : pystr;
  media_type : pystr;
  headers : list (pystr * pystr)
}.

(** The messages of lines 107 and 117 (and 147, 157). *)
Definition msg_missing_filename : string := "Thiếu tên file upload.".
Definition msg_empty_upload : string := "File upload rỗng.".

(** The files that exist, each with its content. *)
Definition filesystem : Type := list (pystr * bytes).

Definition path_eqb (p q : pystr) : bool :=
  if list_eq_dec N.eq_dec p q then true else false.

Definition fs_paths (fs : filesystem) : list pystr := List.map fst fs.

Definition fs_read (path : pystr) (fs : filesystem) : option bytes :=
  match find (fun entry => path_eqb (fst entry) path) fs with
  | Some entry => Some (snd entry)
  | None => None
  end.

(** [tempfile.NamedTemporaryFile(delete=False, ...)]: a new, empty file. *)
Definition fs_create (path : pystr) (fs : filesystem) : filesystem :=
  (path, []) :: fs.

(** [tmp.write(content)] followed by [tmp.close()]. *)
Definition fs_write (path : pystr) (data : bytes) (fs : filesystem)
    : filesystem :=
  List.map (fun entry =>
              if path_eqb (fst entry) path then (fst entry, data) else entry)
           fs.

(** [os.unlink(path)]: [None] stands for the [OSError] of a missing file. *)
Definition fs_unlink (path : pystr) (fs : filesystem) : option filesystem :=
  if existsb (fun entry => path_eqb (fst entry) path) fs
  then Some (filter (fun entry => negb (path_eqb (fst entry) path)) fs)
  else None.

(** Lines 137-141 and 168-172: the [finally] clause, which unlinks the
    temporary file and passes over an [OSError]. *)
Definition finally_unlink {A : Type} (tmp_path : pystr)
    (r : (A + endpoint_exn) * filesystem) : (A + endpoint_exn) * filesystem :=
  let '(outcome, fs) := r in
  match fs_unlink tmp_path fs with
  | Some fs' => (outcome, fs')
  | None => (outcome, fs)
  end.

(** [s or default] on strings. *)
Definition str_or (s default : pystr) : pystr :=
  if truthy s then s else default.

(** The header value of line 129; code point 34 is the double quote. *)
Definition content_disposition (base_name : pystr) : pystr :=
  lit "attachment; filename=" ++ [34%N] ++ base_name ++ lit ".srt"
    ++ [34%N].

Section Endpoints.

(** The pipeline reads the file at the path it is given. *)
Variable pipe : filesystem -> pystr -> pipe_result.

(** The name that [NamedTemporaryFile] chooses for a suffix. *)
Variable tmpname : filesystem -> pystr -> pystr.

(** [Path(name).suffix] and [Path(name).stem] of [pathlib]. *)
Variable path_suffix : pystr -> pystr.
Variable path_stem : pystr -> pystr.

(** Lines 104-141, on the file system: the outcome and the file system
    left behind. *)
Definition transcribe (file : UploadFile) (fs : filesystem)
    : (Response + endpoint_exn) * filesystem :=
  match py_or (filename file) None with
  | None => (inr (HTTPException 400 msg_missing_filename), fs)
  | Some name =>
      let suffix := str_or (path_suffix name) (lit ".mp4") in
      let tmp_path := tmpname fs suffix in
      let fs1 := fs_create tmp_path fs in
      finally_unlink tmp_path
        (let content := file_read file in
         match content with
         | [] => (inr (HTTPException 400 msg_empty_upload), fs1)
         | _ :: _ =>
             let fs2 := fs_write tmp_path content fs1 in
             match _run_transcription (pipe fs2) tmp_path with
             | Raise (RuntimeError msg) => (inr (HTTPException 400 msg), fs2)
             | Raise e => (inr (Propagated e), fs2)
             | Return srt_content =>
                 let base_name := str_or (path_stem name) (lit "transcript") in
                 (inl {| body := srt_content;
                         media_type := lit "application/x-subrip";
                         headers := [ (lit "Content-Disposition",
                                       content_disposition base_name) ] |},
                  fs2)
             end
         end)
  end.

(** Lines 144-172. *)
Definition transcribe_json (file : UploadFile) (fs : filesystem)
    : (response + endpoint_exn) * filesystem :=
  match py_or (filename file) None with
  | None => (inr (HTTPException 400 msg_missing_filename), fs)
  | Some name =>
      let suffix := str_or (path_suffix name) (lit ".mp4") in
      let tmp_path := tmpname fs suffix in
      let fs1 := fs_create tmp_path fs in
      finally_unlink tmp_path
        (let content := file_read file in
         match content with
         | [] => (inr (HTTPException 400 msg_empty_upload), fs1)
         | _ :: _ =>
             let fs2 := fs_write tmp_path content fs1 in
             match _build_segments (pipe fs2) tmp_path with
             | Raise (RuntimeError msg) => (inr (HTTPException 400 msg), fs2)
             | Raise e => (inr (Propagated e), fs2)
             | Return segments => (inl (_segments_to_response segments), fs2)
             end
         end)
  end.

End Endpoints.

(** The temporary path of an upload named [name], and the file system at
    the time the pipeline is called: the temporary file holds the upload. *)
Definition upload_tmp_path (tmpname : filesystem -> pystr -> pystr)
    (path_suffix : pystr -> pystr) (name : pystr) (fs : filesystem) : pystr :=
  tmpname fs (str_or (path_suffix name) (lit ".mp4")).

Definition upload_fs (tmpname : filesystem -> pystr -> pystr)
    (path_suffix : pystr -> pystr) (name : pystr) (file : UploadFile)
    (fs : filesystem) : filesystem :=
  fs_write (upload_tmp_path tmpname path_suffix name fs) (file_read file)
    (fs_create (upload_tmp_path tmpname path_suffix name fs) fs).

(** Where an [HTTPException] comes from, by its detail. *)
Definition rejection (file : UploadFile) (detail : string) : Prop :=
  (py_or (filename file) None = None /\ detail = msg_missing_filename)
  \/ (py_or (filename file) None <> None /\ file_read file = []
      /\ detail = msg_empty_upload)
  \/ (py_or (filename file) None <> None /\ file_read file <> []
      /\ (detail = msg_no_segments \/ detail = msg_no_subtitles)).

(** ** Concrete inputs for the endpoints *)

Definition sample_bytes : bytes := [Byte.x52; Byte.x49; Byte.x46; Byte.x46].

Definition sample_upload : UploadFile :=
  {| filename := Some (lit "talk.mp4"); file_read := sample_bytes |}.

Definition unnamed_upload : UploadFile :=
  {| filename := None; file_read := sample_bytes |}.

Definition empty_upload : UploadFile :=
  {| filename := Some (lit "talk.mp4"); file_read := [] |}.

Definition sample_fs : filesystem := [ (lit "/etc/hosts", [Byte.x31]) ].

(** A temporary name that no file of [sample_fs] has. *)
Definition sample_tmpname (fs : filesystem) (suffix : pystr) : pystr :=
  lit "/tmp/tmpab12cd" ++ suffix.

Definition sample_suffix (name : pystr) : pystr := lit ".mp4".
Definition sample_stem (name : pystr) : pystr := lit "talk".

(** A pipeline that answers with the scenario of section 8 when the file
    at the path has a content, and with no fragment collection otherwise. *)
Definition sample_asr (data : option bytes) : pipe_result :=
  match data with
  | Some (_ :: _) => {| chunks := Some scenario_fragments |}
  | _ => {| chunks := None |}
  end.

Definition sample_pipe (fs : filesystem) (path : pystr) : pipe_result :=
  sample_asr (fs_read path fs).


(** Segments whose first start is not a number. *)
Definition nan_segments : list item :=
  [ {| item_id := 1; item_start := nan; item_end := 1%float;
       item_text := lit "x" |} ].

(** ** Binary64 rounding, for the fallback end time *)

(** The number of binary digits of a mantissa. *)
Definition dig (m : positive) : Z := Zpos (digits2_pos m).

(** The value [m * 2^e] of a binary64 number in units of [2^-1074], the
    smallest positive one: an integer for every exponent from -1074 up. *)
Definition sv (m e : Z) : Z := m * 2 ^ (e + 1074).

(** What binary64 rounding returns for a rounded mantissa [m] of at most
    2^53 at the exponent [e]: a carry to 2^53 moves to the next exponent,
    and an exponent above 971 overflows to an infinity. *)
Definition finish (s : bool) (m e : Z) : spec_float :=
  match m with
  | Z0 => S754_zero s
  | Zpos p =>
      if m =? 9007199254740992
      then (if e + 1 <=? 971 then S754_finite s 4503599627370496 (e + 1)
            else S754_infinity s)
      else (if e <=? 971 then S754_finite s p e else S754_infinity s)
  | Zneg _ => S754_nan
  end.

(** After [k] one-bit right shifts of [M]: the mantissa is the quotient,
    and the round and sticky bits are clear when nothing was lost. *)
Definition shr_inv (M k : Z) (r : shr_record) : Prop :=
  shr_m r = M / 2 ^ k
  /\ (M mod 2 ^ k = 0 -> shr_r r = false /\ shr_s r = false).

(** The float 2.0. *)
Definition sf_two : spec_float := S754_finite false 4503599627370496 (-51).

(** [t] is [s] without its leading and trailing whitespace: [s] is [t]
    between two runs of whitespace, and [t] neither starts nor ends with a
    whitespace character. *)
Definition trimmed_of (s t : pystr) : Prop :=
  (exists l r, s = l ++ t ++ r /\ all_space l = true /\ all_space r = true)
  /\ (forall c u, t = c :: u -> isspace c = false)
  /\ (forall c u, t = u ++ [c] -> isspace c = false).

(** Segments whose texts carry whitespace at their ends. *)
Definition padded_segments : list item :=
  [ {| item_id := 1; item_start := 0%float; item_end := 1%float;
       item_text := lit " a " |};
    {| item_id := 2; item_start := 1%float; item_end := 2%float;
       item_text := lit "b " |} ].

(** A fragment with no end whose start is not a number. *)
Definition nan_fragment : chunk :=
  fragment (Some nan) None (Some (lit "x")).

(** ** Facts about [strip] *)

Section StripFacts.

Lemma lstrip_split (s : pystr) :
  exists l, s = l ++ lstrip s /\ all_space l = true.
Proof.
  induction s as [|c s IH]; simpl.
  - exists []. split; reflexivity.
  - destruct (isspace c) eqn:Hc.
    + destruct IH as [l [Hs Hl]]. exists (c :: l). split.
      * simpl. rewrite <- Hs. reflexivity.
      * simpl. rewrite Hc. exact Hl.
    + exists []. split; reflexivity.
Qed.

Lemma lstrip_head (s : pystr) (c : N) (r : pystr) :
  lstrip s = c :: r -> isspace c = false.
Proof.
  induction s as [|d s IH]; simpl; intro H.
  - discriminate.
  - destruct (isspace d) eqn:Hd.
    + apply IH. exact H.
    + injection H as -> _. exact Hd.
Qed.

Lemma lstrip_all_space (s : pystr) :
  all_space s = true -> lstrip s = [].
Proof.
  induction s as [|c s IH]; simpl; intro H.
  - reflexivity.
  - apply andb_true_iff in H. destruct H as [Hc Hs]. rewrite Hc. auto.
Qed.

Lemma lstrip_nil_all_space (s : pystr) :
  lstrip s = [] -> all_space s = true.
Proof.
  induction s as [|c s IH]; simpl; intro H.
  - reflexivity.
  - destruct (isspace c); [auto | discriminate].
Qed.

Lemma all_space_app (a b : pystr) :
  all_space (a ++ b) = all_space a && all_space b.
Proof. unfold all_space. apply forallb_app. Qed.

Lemma all_space_rev (s : pystr) : all_space (rev s) = all_space s.
Proof.
  induction s as [|c s IH]; simpl.
  - reflexivity.
  - rewrite all_space_app, IH. simpl. rewrite andb_true_r. apply andb_comm.
Qed.

Lemma rstrip_split (s : pystr) :
  exists r, s = rstrip s ++ r /\ all_space r = true.
Proof.
  unfold rstrip. destruct (lstrip_split (rev s)) as [l [Hs Hl]].
  exists (rev l). split.
  - rewrite <- rev_app_distr, <- Hs. symmetry. apply rev_involutive.
  - rewrite all_space_rev. exact Hl.
Qed.

Lemma rstrip_last (s : pystr) (c : N) (r : pystr) :
  rstrip s = r ++ [c] -> isspace c = false.
Proof.
  unfold rstrip. intro H.
  apply (f_equal (@rev N)) in H.
  rewrite rev_involutive, rev_app_distr in H. simpl in H.
  eapply lstrip_head. exact H.
Qed.

Lemma lstrip_app_keep (a b : pystr) :
  lstrip a <> [] -> lstrip (a ++ b) = lstrip a ++ b.
Proof.
  induction a as [|c a IH]; simpl; intro H.
  - contradiction.
  - destruct (isspace c); [auto | reflexivity].
Qed.

Lemma lstrip_app_all_space (a b : pystr) :
  all_space a = true -> lstrip (a ++ b) = lstrip b.
Proof.
  induction a as [|c a IH]; simpl; intro H.
  - reflexivity.
  - apply andb_true_iff in H. destruct H as [Hc Ha]. rewrite Hc. auto.
Qed.

(** [rstrip] keeps a first character that is not whitespace. *)
Lemma rstrip_head (s : pystr) (c : N) :
  isspace c = false -> exists r, rstrip (c :: s) = c :: r.
Proof.
  intro Hc. unfold rstrip. simpl.
  destruct (lstrip (rev s)) as [|d t] eqn:Hl.
  - exists []. rewrite lstrip_app_all_space.
    + simpl. rewrite Hc. reflexivity.
    + apply lstrip_nil_all_space. exact Hl.
  - exists (rev (d :: t)). rewrite lstrip_app_keep.
    + rewrite Hl, rev_app_distr. reflexivity.
    + rewrite Hl. discriminate.
Qed.

Lemma strip_split (s : pystr) :
  exists l r, s = l ++ strip s ++ r /\ all_space l = true /\ all_space r = true.
Proof.
  destruct (lstrip_split s) as [l [Hs Hl]].
  destruct (rstrip_split (lstrip s)) as [r [Ht Hr]].
  exists l, r. unfold strip. rewrite <- Ht. auto.
Qed.

Lemma strip_head (s : pystr) (c : N) (t : pystr) :
  strip s = c :: t -> isspace c = false.
Proof.
  unfold strip. destruct (lstrip s) as [|d u] eqn:Hl.
  - discriminate.
  - pose proof (lstrip_head _ _ _ Hl) as Hd.
    destruct (rstrip_head u d Hd) as [r Hr]. rewrite Hr.
    intro H. injection H as -> _. exact Hd.
Qed.

Lemma strip_last (s : pystr) (c : N) (t : pystr) :
  strip s = t ++ [c] -> isspace c = false.
Proof. unfold strip. apply rstrip_last. Qed.

Lemma strip_all_space (s : pystr) : all_space s = true -> strip s = [].
Proof.
  intro H. unfold strip. rewrite (lstrip_all_space s H). reflexivity.
Qed.

Lemma strip_nil_all_space (s : pystr) : strip s = [] -> all_space s = true.
Proof.
  unfold strip. intro H. apply lstrip_nil_all_space.
  destruct (lstrip s) as [|d u] eqn:Hl; [reflexivity|].
  pose proof (lstrip_head _ _ _ Hl) as Hd.
  destruct (rstrip_head u d Hd) as [r Hr]. rewrite Hr in H. discriminate.
Qed.

(** A string with no whitespace at either end is its own [strip]. *)
Lemma lstrip_fixed (s : pystr) :
  (forall c t, s = c :: t -> isspace c = false) -> lstrip s = s.
Proof.
  destruct s as [|c t]; simpl; intro H; [reflexivity|].
  rewrite (H c t eq_refl). reflexivity.
Qed.

Lemma strip_idempotent (s : pystr) : strip (strip s) = strip s.
Proof.
  assert (Hl : lstrip (strip s) = strip s).
  { apply lstrip_fixed. intros c t. apply strip_head. }
  unfold strip at 1. rewrite Hl. unfold rstrip.
  rewrite lstrip_fixed.
  - apply rev_involutive.
  - intros c t Hr. apply (strip_last s c (rev t)).
    rewrite <- (rev_involutive (strip s)), Hr. reflexivity.
Qed.

End StripFacts.

(** ** The loop of [_build_segments] *)

Section LoopFacts.

(** Reading the text of a fragment never raises. *)
Lemma read_text (f : chunk) :
  py_strip (py_or (chunk_text f) (Some [])) = Return (trimmed_text f).
Proof.
  unfold trimmed_text, text_or_empty, py_or.
  destruct (chunk_text f) as [[|c t]|]; reflexivity.
Qed.

Lemma truthy_trimmed (f : chunk) :
  truthy (trimmed_text f) = negb (empty_trimmed_text f).
Proof.
  unfold empty_trimmed_text. destruct (trimmed_text f); reflexivity.
Qed.

(** One iteration appends the segment of the fragment, if it has one. *)
Lemma loop_body_segment_of (items : list item) (i : Z) (f : chunk) :
  loop_body (items, i) f =
  Return match segment_of i f with
         | Some it => (items ++ [it], i + 1)
         | None => (items, i)
         end.
Proof.
  unfold loop_body, segment_of, chunk_start, chunk_end.
  destruct (chunk_timestamp f) as [[[s|] e]|]; try reflexivity.
  rewrite read_text. simpl. rewrite truthy_trimmed.
  destruct (empty_trimmed_text f); reflexivity.
Qed.

Lemma for_each_emit_all (fs : list chunk) :
  forall (items : list item) (i : Z),
    for_each loop_body fs (items, i) =
    Return (items ++ emit_all i fs,
            i + Z.of_nat (List.length (emit_all i fs))).
Proof.
  induction fs as [|f fs IH]; intros items i.
  - simpl. rewrite app_nil_r, Z.add_0_r. reflexivity.
  - cbn [for_each emit_all]. rewrite loop_body_segment_of. cbn [bind].
    destruct (segment_of i f) as [it|].
    + rewrite IH, <- app_assoc. cbn [app List.length].
      do 2 f_equal. lia.
    + apply IH.
Qed.

Lemma segment_of_survives (i : Z) (f : chunk) :
  survives f = true -> exists it, segment_of i f = Some it /\ emitted_from f it
                                   /\ item_id it = i.
Proof.
  unfold survives, segment_of, missing_start, emitted_from. intro H.
  apply andb_true_iff in H. destruct H as [H Ht].
  apply andb_true_iff in H. destruct H as [_ Hs].
  destruct (chunk_start f) as [s|]; [|discriminate].
  destruct (empty_trimmed_text f); [discriminate|].
  eexists. split; [reflexivity|]. simpl. auto.
Qed.

Lemma segment_of_dropped (i : Z) (f : chunk) :
  survives f = false -> segment_of i f = None.
Proof.
  unfold survives, segment_of, missing_timing, missing_start, chunk_start.
  destruct (chunk_timestamp f) as [[[s|] e]|]; simpl; try reflexivity.
  destruct (empty_trimmed_text f); [reflexivity | discriminate].
Qed.

Lemma missing_start_dropped (f : chunk) :
  chunk_start f = None -> survives f = false.
Proof.
  unfold survives, missing_start. intros ->.
  rewrite andb_false_r. reflexivity.
Qed.

Lemma empty_text_dropped (f : chunk) :
  trimmed_text f = [] -> survives f = false.
Proof.
  unfold survives, empty_trimmed_text. intros ->. apply andb_false_r.
Qed.

Lemma null_text_dropped (f : chunk) :
  chunk_text f = None -> survives f = false.
Proof.
  intro H. apply empty_text_dropped.
  unfold trimmed_text, text_or_empty. rewrite H. reflexivity.
Qed.

Lemma emit_all_app (a b : list chunk) :
  forall i, emit_all i (a ++ b) =
            emit_all i a
              ++ emit_all (i + Z.of_nat (List.length (emit_all i a))) b.
Proof.
  induction a as [|f a IH]; intro i; simpl.
  - rewrite Z.add_0_r. reflexivity.
  - destruct (segment_of i f) as [it|].
    + rewrite IH. cbn [app List.length]. do 3 f_equal. lia.
    + apply IH.
Qed.

Lemma emit_all_drop (pre post : list chunk) (f : chunk) (i : Z) :
  survives f = false ->
  emit_all i (pre ++ f :: post) = emit_all i (pre ++ post).
Proof.
  intro H. rewrite !emit_all_app. f_equal. simpl.
  rewrite (segment_of_dropped _ f H). reflexivity.
Qed.

Lemma emit_all_survivors (fs : list chunk) :
  forall i, Forall2 emitted_from (filter survives fs) (emit_all i fs).
Proof.
  induction fs as [|f fs IH]; intro i; simpl.
  - constructor.
  - destruct (survives f) eqn:Hf.
    + destruct (segment_of_survives i f Hf) as [it [-> [He _]]].
      constructor; [exact He | apply IH].
    + rewrite (segment_of_dropped i f Hf). apply IH.
Qed.

Lemma emit_all_ids (fs : list chunk) :
  forall i, List.map item_id (emit_all i fs) =
            ids_from i (List.length (filter survives fs)).
Proof.
  induction fs as [|f fs IH]; intro i; simpl.
  - reflexivity.
  - destruct (survives f) eqn:Hf.
    + destruct (segment_of_survives i f Hf) as [it [-> [_ Hi]]].
      simpl. rewrite Hi, IH. reflexivity.
    + rewrite (segment_of_dropped i f Hf). apply IH.
Qed.

Lemma ids_from_seq (n : nat) :
  forall k : nat, ids_from (Z.of_nat k) n = List.map Z.of_nat (seq k n).
Proof.
  induction n as [|n IH]; intro k; simpl.
  - reflexivity.
  - f_equal. rewrite <- IH. f_equal. lia.
Qed.

(** [normalize] in closed form. *)
Lemma normalize_emit_all (segments : list chunk) :
  normalize segments =
  match emit_all 1 segments with
  | [] => Raise EmptyTranscriptError
  | it :: rest => Return (it :: rest)
  end.
Proof.
  unfold normalize. rewrite for_each_emit_all. cbn [bind app].
  destruct (emit_all 1 segments); reflexivity.
Qed.

Lemma normalize_returns (segments : list chunk) (items : list item) :
  normalize segments = Return items ->
  items = emit_all 1 segments /\ items <> [].
Proof.
  rewrite normalize_emit_all.
  destruct (emit_all 1 segments) as [|it rest]; intro H.
  - discriminate.
  - injection H as <-. split; [reflexivity | discriminate].
Qed.

Lemma normalize_drop (pre post : list chunk) (f : chunk) :
  survives f = false ->
  normalize (pre ++ f :: post) = normalize (pre ++ post).
Proof.
  intro H. rewrite !normalize_emit_all, (emit_all_drop pre post f 1 H).
  reflexivity.
Qed.

Lemma Forall2_nil_iff {A B : Type} (R : A -> B -> Prop) (l : list A)
    (l' : list B) :
  Forall2 R l l' -> (l = [] <-> l' = []).
Proof.
  intro H. destruct H; split; intro E; try reflexivity; discriminate.
Qed.

(** [" ".join] puts one space between consecutive texts. *)
Lemma join_space (xs : list pystr) :
  join (lit " ") xs = joined_with_space xs.
Proof.
  destruct xs as [|x rest]; [reflexivity|]. unfold join.
  revert x. induction rest as [|y rest IH]; intro x.
  - simpl. apply app_nil_r.
  - change (joined_with_space (x :: y :: rest))
      with (x ++ [space] ++ joined_with_space (y :: rest)).
    rewrite <- (IH y). cbn [List.map List.concat].
    rewrite <- app_assoc. reflexivity.
Qed.

End LoopFacts.

(** ** Positional correspondence between survivors and segments *)

Section Correspondence.

Context {A B : Type} (R : A -> B -> Prop).

Lemma Forall2_nth_error_l (l : list A) (l' : list B) :
  Forall2 R l l' ->
  forall k a, nth_error l k = Some a ->
              exists b, nth_error l' k = Some b /\ R a b.
Proof.
  induction 1 as [|x y l l' Hxy _ IH]; intros k a Hk.
  - destruct k; discriminate.
  - destruct k as [|k]; simpl in *.
    + injection Hk as <-. exists y. auto.
    + apply IH. exact Hk.
Qed.

Lemma Forall2_In_r (l : list A) (l' : list B) :
  Forall2 R l l' ->
  forall b, In b l' -> exists a, In a l /\ R a b.
Proof.
  induction 1 as [|x y l l' Hxy _ IH]; intros b Hb.
  - destruct Hb.
  - destruct Hb as [<- | Hb].
    + exists x. split; [left; reflexivity | exact Hxy].
    + destruct (IH b Hb) as [a [Ha Hab]]. exists a. split; [right|]; assumption.
Qed.

Lemma Forall2_nth_error_r (l : list A) (l' : list B) :
  Forall2 R l l' ->
  forall k b, nth_error l' k = Some b ->
              exists a, nth_error l k = Some a /\ R a b.
Proof.
  induction 1 as [|x y l l' Hxy _ IH]; intros k b Hk.
  - destruct k; discriminate.
  - destruct k as [|k]; simpl in *.
    + injection Hk as <-. exists x. auto.
    + apply IH. exact Hk.
Qed.

End Correspondence.

(** The segments that [normalize] returns are those of the survivors, in
    order. *)
Lemma normalize_survivors (segments : list chunk) (items : list item) :
  normalize segments = Return items ->
  Forall2 emitted_from (filter survives segments) items.
Proof.
  intro H. destruct (normalize_returns _ _ H) as [-> _].
  apply emit_all_survivors.
Qed.

(** ** The fallback end time is not before the start *)

Section AddTwo.

Lemma fexp64 (e : Z) : fexp prec emax e = Z.max (e - 53) (-1074).
Proof. reflexivity. Qed.

Lemma dig_bounds (m : positive) :
  2 ^ (dig m - 1) <= Zpos m < 2 ^ dig m.
Proof.
  unfold dig. induction m as [m IH|m IH|]; cbn [digits2_pos].
  - rewrite Pos2Z.inj_succ.
    replace (Z.succ (Zpos (digits2_pos m)) - 1) with (Z.succ (Zpos (digits2_pos m) - 1)) by lia.
    rewrite !Z.pow_succ_r by lia. lia.
  - rewrite Pos2Z.inj_succ.
    replace (Z.succ (Zpos (digits2_pos m)) - 1) with (Z.succ (Zpos (digits2_pos m) - 1)) by lia.
    rewrite !Z.pow_succ_r by lia. lia.
  - simpl. lia.
Qed.

Lemma dig_pos (m : positive) : 1 <= dig m.
Proof. unfold dig. lia. Qed.

Lemma shr_1_spec (m : Z) (r s : bool) :
  0 <= m ->
  shr_1 {| shr_m := m; shr_r := r; shr_s := s |}
  = {| shr_m := m / 2; shr_r := Z.odd m; shr_s := r || s |}.
Proof.
  intro Hm. destruct m as [|p|p]; [reflexivity| |lia].
  destruct p as [p|p|]; cbn [shr_1]; f_equal; try reflexivity.
  - rewrite Pos2Z.inj_xI. apply Z.div_unique with (r := 1); lia.
  - rewrite Pos2Z.inj_xO. apply Z.div_unique with (r := 0); lia.
Qed.

Lemma shr_inv_step (M k : Z) (rec : shr_record) :
  0 <= M -> 0 <= k -> shr_inv M k rec -> shr_inv M (k + 1) (shr_1 rec).
Proof.
  intros HM Hk [Hm Hex]. destruct rec as [m r s]. simpl in Hm, Hex.
  assert (Hp : 0 < 2 ^ k) by (apply Z.pow_pos_nonneg; lia).
  assert (Hm0 : 0 <= m) by (subst m; apply Z.div_pos; lia).
  rewrite shr_1_spec by exact Hm0. unfold shr_inv. simpl.
  rewrite Z.pow_add_r by lia. change (2 ^ 1) with 2.
  split.
  - subst m. rewrite Z.div_div by lia. reflexivity.
  - intro H0.
    assert (Hk0 : M mod 2 ^ k = 0).
    { apply Z.mod_divide in H0; [|lia]. destruct H0 as [c Hc].
      apply Z.mod_divide; [lia|]. exists (c * 2). lia. }
    destruct (Hex Hk0) as [-> ->]. split; [|reflexivity].
    apply Z.mod_divide in H0; [|lia]. destruct H0 as [c Hc].
    subst m. replace M with ((c * 2) * 2 ^ k) by lia.
    rewrite Z.div_mul by lia. rewrite Z.odd_mul. apply andb_false_r.
Qed.

Lemma shr_inv_iter (M : Z) (p : positive) :
  0 <= M ->
  forall (k : Z) (rec : shr_record),
    0 <= k -> shr_inv M k rec -> shr_inv M (k + Zpos p) (iter_pos shr_1 p rec).
Proof.
  intro HM. induction p as [p IH|p IH|]; intros k rec Hk Hinv; cbn [iter_pos].
  - replace (k + Zpos p~1) with (k + 1 + Zpos p + Zpos p) by lia.
    apply IH; [lia|]. apply IH; [lia|]. apply shr_inv_step; assumption.
  - replace (k + Zpos p~0) with (k + Zpos p + Zpos p) by lia.
    apply IH; [lia|]. apply IH; assumption.
  - apply shr_inv_step; assumption.
Qed.

Lemma rne_bounds (q : Z) (l : location) :
  q <= round_nearest_even q l <= q + 1.
Proof.
  destruct l as [|[| |]]; simpl; try lia. destruct (Z.even q); lia.
Qed.

Lemma rne_exact (rec : shr_record) :
  shr_r rec = false -> shr_s rec = false ->
  round_nearest_even (shr_m rec) (loc_of_shr_record rec) = shr_m rec.
Proof. destruct rec as [m r s]. simpl. intros -> ->. reflexivity. Qed.

Lemma shr_fexp_first (M : positive) (E : Z) :
  E <= fexp prec emax (dig M + E) ->
  exists rec,
    shr_fexp prec emax (Zpos M) E loc_Exact
    = (rec, fexp prec emax (dig M + E))
    /\ shr_inv (Zpos M) (fexp prec emax (dig M + E) - E) rec.
Proof.
  intro HE. unfold shr_fexp, shr. cbn [Zdigits2 shr_record_of_loc].
  fold (dig M).
  destruct (fexp prec emax (dig M + E) - E) as [|p|p] eqn:Hn.
  - eexists. split.
    + f_equal. lia.
    + split; simpl; [rewrite Z.div_1_r; reflexivity | auto].
  - eexists. split.
    + f_equal. lia.
    + change (Zpos p) with (0 + Zpos p).
      apply shr_inv_iter; [lia | lia |].
      split; simpl; [rewrite Z.div_1_r; reflexivity | auto].
  - lia.
Qed.

Lemma finish_spec (s : bool) (m e : Z) :
  -1074 <= e -> 0 <= m <= 9007199254740992 ->
  (let '(mrs, e') := shr_fexp prec emax m e loc_Exact in
   match shr_m mrs with
   | Z0 => S754_zero s
   | Zpos p =>
       if e' <=? emax - prec then S754_finite s p e' else S754_infinity s
   | Zneg _ => S754_nan
   end) = finish s m e.
Proof.
  intros He Hm. unfold shr_fexp, shr. cbn [shr_record_of_loc].
  destruct m as [|p|p]; [| |lia].
  - cbn [Zdigits2]. rewrite fexp64.
    destruct (Z.max (0 + e - 53) (-1074) - e) as [|q|q] eqn:Hn;
      try reflexivity. lia.
  - cbn [Zdigits2]. fold (dig p). rewrite fexp64. unfold finish.
    destruct (Z.eqb_spec (Zpos p) 9007199254740992) as [Heq|Hne].
    + injection Heq as ->. change (dig 9007199254740992) with 54.
      replace (Z.max (54 + e - 53) (-1074) - e) with 1 by lia.
      reflexivity.
    + pose proof (dig_bounds p) as [Hlo _].
      assert (Hd : dig p <= 53).
      { destruct (Z_le_gt_dec (dig p) 53) as [H|H]; [exact H|].
        exfalso. assert (2 ^ 53 <= 2 ^ (dig p - 1))
          by (apply Z.pow_le_mono_r; lia).
        change (2 ^ 53) with 9007199254740992 in *. lia. }
      destruct (Z.max (dig p + e - 53) (-1074) - e) as [|q|q] eqn:Hn;
        try reflexivity. lia.
Qed.

Lemma binary_round_aux_spec (s : bool) (M : positive) (E : Z) :
  -1074 <= E ->
  E <= fexp prec emax (dig M + E) ->
  exists m : Z,
    Zpos M / 2 ^ (fexp prec emax (dig M + E) - E) <= m
    /\ m <= Zpos M / 2 ^ (fexp prec emax (dig M + E) - E) + 1
    /\ (Zpos M mod 2 ^ (fexp prec emax (dig M + E) - E) = 0 ->
        m = Zpos M / 2 ^ (fexp prec emax (dig M + E) - E))
    /\ Zpos M / 2 ^ (fexp prec emax (dig M + E) - E) < 9007199254740992
    /\ binary_round_aux prec emax s (Zpos M) E loc_Exact
       = finish s m (fexp prec emax (dig M + E)).
Proof.
  intros HE Hle. destruct (shr_fexp_first M E Hle) as [rec [Hshr [Hm Hex]]].
  set (e' := fexp prec emax (dig M + E)) in *.
  set (n := e' - E) in *.
  assert (Hn : 0 <= n) by (unfold n; lia).
  assert (Hp : 0 < 2 ^ n) by (apply Z.pow_pos_nonneg; lia).
  assert (Hq : Zpos M / 2 ^ n < 9007199254740992).
  { apply Z.div_lt_upper_bound; [exact Hp|].
    pose proof (dig_bounds M) as [_ Hhi].
    assert (Hd : dig M <= n + 53).
    { unfold n, e'. rewrite fexp64. lia. }
    assert (2 ^ dig M <= 2 ^ (n + 53)) by (apply Z.pow_le_mono_r; lia).
    rewrite Z.pow_add_r in H by lia.
    change (2 ^ 53) with 9007199254740992 in H. lia. }
  exists (round_nearest_even (shr_m rec) (loc_of_shr_record rec)).
  pose proof (rne_bounds (shr_m rec) (loc_of_shr_record rec)) as [Hb1 Hb2].
  split; [lia|]. split; [lia|]. split.
  - intro H0. destruct (Hex H0) as [Hr Hs].
    rewrite (rne_exact rec Hr Hs). exact Hm.
  - split; [exact Hq|].
    unfold binary_round_aux. rewrite Hshr.
    apply finish_spec.
    + unfold e'. rewrite fexp64. lia.
    + assert (0 <= Zpos M / 2 ^ n) by (apply Z.div_pos; lia). lia.
Qed.

Lemma bounded_facts (mx : positive) (ex : Z) :
  bounded prec emax mx ex = true ->
  -1074 <= ex <= 971
  /\ fexp prec emax (dig mx + ex) = ex
  /\ Zpos mx < 9007199254740992
  /\ (-1074 < ex -> 4503599627370496 <= Zpos mx).
Proof.
  unfold bounded, canonical_mantissa. intro H.
  apply andb_true_iff in H. destruct H as [Hc Hb].
  apply Z.eqb_eq in Hc. apply Z.leb_le in Hb. fold (dig mx) in Hc.
  change (emax - prec) with 971 in Hb.
  pose proof (dig_bounds mx) as [Hlo Hhi].
  pose proof Hc as Hc'. rewrite fexp64 in Hc'.
  repeat split; try lia; try exact Hc.
  - assert (2 ^ dig mx <= 2 ^ 53) by (apply Z.pow_le_mono_r; lia).
    change (2 ^ 53) with 9007199254740992 in H. lia.
  - intro Hex. assert (Hd : dig mx = 53) by lia.
    rewrite Hd in Hlo. exact Hlo.
Qed.

Lemma sv_pos_factor (e : Z) : -1074 <= e -> 0 < 2 ^ (e + 1074).
Proof. intro H. apply Z.pow_pos_nonneg; lia. Qed.

Lemma sv_shift (m e1 e2 : Z) :
  -1074 <= e1 -> e1 <= e2 -> sv m e2 = sv (m * 2 ^ (e2 - e1)) e1.
Proof.
  intros H1 H2. unfold sv.
  replace (e2 + 1074) with ((e2 - e1) + (e1 + 1074)) by lia.
  rewrite Z.pow_add_r by lia. lia.
Qed.

Lemma sv_le_iff (a b e : Z) : -1074 <= e -> (sv a e <= sv b e <-> a <= b).
Proof.
  intro H. unfold sv. pose proof (sv_pos_factor e H). split; intro; nia.
Qed.

Lemma sv_lt_iff (a b e : Z) : -1074 <= e -> (sv a e < sv b e <-> a < b).
Proof.
  intro H. unfold sv. pose proof (sv_pos_factor e H). split; intro; nia.
Qed.

(** A value at least that of a canonical number, with a mantissa below
    2^53, is not below it in the order on (exponent, mantissa). *)
Lemma lex_lower (mx : positive) (ex m e : Z) :
  bounded prec emax mx ex = true ->
  -1074 <= e -> m < 9007199254740992 ->
  sv (Zpos mx) ex <= sv m e ->
  ex < e \/ (ex = e /\ Zpos mx <= m).
Proof.
  intros Hb He Hm Hle.
  destruct (bounded_facts mx ex Hb) as [Hex [_ [Hhi Hlo]]].
  destruct (Z.lt_trichotomy ex e) as [H | [H | H]].
  - left. exact H.
  - right. split; [exact H|]. subst e. apply (sv_le_iff _ _ ex); lia.
  - exfalso. rewrite (sv_shift (Zpos mx) e ex) in Hle by lia.
    apply sv_le_iff in Hle; [|lia].
    assert (2 ^ 1 <= 2 ^ (ex - e)) by (apply Z.pow_le_mono_r; lia).
    change (2 ^ 1) with 2 in H0. specialize (Hlo ltac:(lia)). nia.
Qed.

(** A value at most that of a canonical number, on a grid not coarser
    than its own, is not above it in the order on (exponent, mantissa). *)
Lemma lex_upper (mx : positive) (ex m e : Z) :
  bounded prec emax mx ex = true ->
  -1074 <= e -> e <= ex ->
  sv m e <= sv (Zpos mx) ex ->
  e < ex \/ (e = ex /\ m <= Zpos mx).
Proof.
  intros Hb He Hle Hv.
  destruct (Z.eq_dec e ex) as [-> | Hne].
  - right. split; [reflexivity|]. apply (sv_le_iff _ _ ex); lia.
  - left. lia.
Qed.

Lemma round_lower (s : bool) (M : positive) (E : Z) (mx : positive) (ex : Z) :
  bounded prec emax mx ex = true ->
  -1074 <= E ->
  E <= fexp prec emax (dig M + E) ->
  sv (Zpos mx) ex <= sv (Zpos M) E ->
  binary_round_aux prec emax s (Zpos M) E loc_Exact = S754_infinity s
  \/ exists m e,
       binary_round_aux prec emax s (Zpos M) E loc_Exact = S754_finite s m e
       /\ (ex < e \/ (ex = e /\ Zpos mx <= Zpos m)).
Proof.
  intros Hb HE Hle Hv.
  destruct (binary_round_aux_spec s M E HE Hle) as [m [Hm1 [Hm2 [_ [Hq ->]]]]].
  destruct (bounded_facts mx ex Hb) as [Hex [_ [Hhi Hlo]]].
  set (e' := fexp prec emax (dig M + E)) in *.
  set (n := e' - E) in *.
  assert (Hn : 0 <= n) by (unfold n; lia).
  assert (Hp : 0 < 2 ^ n) by (apply Z.pow_pos_nonneg; lia).
  assert (He' : -1074 <= e') by lia.
  set (q := Zpos M / 2 ^ n) in *.
  assert (Hqm : 2 ^ n * q <= Zpos M) by (apply Z.mul_div_le; exact Hp).
  (* the number is not above the value rounded down *)
  assert (K : sv (Zpos mx) ex <= sv q e').
  { destruct (Z_le_gt_dec e' ex) as [Hcase | Hcase].
    - rewrite (sv_shift (Zpos mx) e' ex) by lia. apply sv_le_iff; [lia|].
      apply Z.div_le_lower_bound; [exact Hp|].
      rewrite (sv_shift (Zpos mx) e' ex) in Hv by lia.
      rewrite (sv_shift _ E e') in Hv by lia. fold n in Hv.
      apply sv_le_iff in Hv; [|lia]. lia.
    - assert (Hfe : e' = dig M + E - 53).
      { unfold e' in *. rewrite fexp64 in *. lia. }
      assert (Hq52 : 4503599627370496 <= q).
      { apply Z.div_le_lower_bound; [exact Hp|].
        pose proof (dig_bounds M) as [Hlo' _].
        replace (dig M - 1) with (n + 52) in Hlo' by (unfold n; lia).
        rewrite Z.pow_add_r in Hlo' by lia.
        change (2 ^ 52) with 4503599627370496 in Hlo'. lia. }
      rewrite (sv_shift q ex e') by lia. apply sv_le_iff; [lia|].
      assert (2 ^ 1 <= 2 ^ (e' - ex)) by (apply Z.pow_le_mono_r; lia).
      change (2 ^ 1) with 2 in H. nia. }
  assert (Kv : sv (Zpos mx) ex <= sv m e').
  { eapply Z.le_trans; [exact K|]. apply sv_le_iff; lia. }
  assert (Hm0 : 0 < m).
  { apply (sv_lt_iff 0 m e'); [lia|]. unfold sv at 1. simpl.
    assert (0 < sv (Zpos mx) ex)
      by (unfold sv; pose proof (sv_pos_factor ex ltac:(lia)); nia).
    lia. }
  unfold finish. destruct m as [|p|p]; try lia.
  destruct (Z.eqb_spec (Zpos p) 9007199254740992) as [Heq | Hne].
  - destruct (e' + 1 <=? 971); [|left; reflexivity].
    right. exists 4503599627370496%positive, (e' + 1). split; [reflexivity|].
    apply lex_lower; try assumption; try lia.
    rewrite (sv_shift _ e' (e' + 1)) by lia.
    replace (e' + 1 - e') with 1 by lia. rewrite Heq in Kv. exact Kv.
  - destruct (e' <=? 971); [|left; reflexivity].
    right. exists p, e'. split; [reflexivity|].
    apply lex_lower; try assumption; lia.
Qed.

Lemma round_upper (s : bool) (M : positive) (E : Z) (mx : positive) (ex : Z) :
  bounded prec emax mx ex = true ->
  -1074 <= E ->
  E <= fexp prec emax (dig M + E) ->
  sv (Zpos M) E <= sv (Zpos mx) ex ->
  binary_round_aux prec emax s (Zpos M) E loc_Exact = S754_zero s
  \/ exists m e,
       binary_round_aux prec emax s (Zpos M) E loc_Exact = S754_finite s m e
       /\ (e < ex \/ (e = ex /\ Zpos m <= Zpos mx)).
Proof.
  intros Hb HE Hle Hv.
  destruct (binary_round_aux_spec s M E HE Hle) as [m [Hm1 [Hm2 [Hm3 [Hq ->]]]]].
  destruct (bounded_facts mx ex Hb) as [Hex [Hcan [Hhi Hlo]]].
  set (e' := fexp prec emax (dig M + E)) in *.
  set (n := e' - E) in *.
  assert (Hn : 0 <= n) by (unfold n; lia).
  assert (Hp : 0 < 2 ^ n) by (apply Z.pow_pos_nonneg; lia).
  assert (He' : -1074 <= e') by lia.
  set (q := Zpos M / 2 ^ n) in *.
  (* the grid of the result is not coarser than that of the number *)
  assert (Hee : e' <= ex).
  { assert (Hd : dig M + E <= dig mx + ex).
    { destruct (Z_le_gt_dec (dig M + E) (dig mx + ex)) as [H|H]; [exact H|].
      exfalso. pose proof (dig_bounds M) as [HloM _].
      pose proof (dig_bounds mx) as [_ Hhix].
      pose proof (dig_pos M). pose proof (dig_pos mx).
      assert (Hpow : 2 ^ (dig mx + (ex + 1074))
                     <= 2 ^ ((dig M - 1) + (E + 1074)))
        by (apply Z.pow_le_mono_r; lia).
      rewrite (Z.pow_add_r 2 (dig mx)), (Z.pow_add_r 2 (dig M - 1)) in Hpow
        by lia.
      unfold sv in Hv.
      pose proof (sv_pos_factor ex ltac:(lia)) as Ha.
      pose proof (sv_pos_factor E HE) as Hb'.
      assert (Hstep1 : 2 ^ (dig M - 1) * 2 ^ (E + 1074)
                   <= Zpos M * 2 ^ (E + 1074))
        by (apply Z.mul_le_mono_nonneg_r; lia).
      assert (Hstep2 : Zpos mx * 2 ^ (ex + 1074)
                   < 2 ^ dig mx * 2 ^ (ex + 1074))
        by (apply Z.mul_lt_mono_pos_r; lia).
      lia. }
    unfold e'. rewrite <- Hcan. rewrite !fexp64. lia. }
  set (A := Zpos mx * 2 ^ (ex - e')).
  assert (HA : Zpos M <= A * 2 ^ n).
  { rewrite (sv_shift (Zpos mx) e' ex) in Hv by lia. fold A in Hv.
    rewrite (sv_shift A E e') in Hv by lia. fold n in Hv.
    apply sv_le_iff in Hv; lia. }
  assert (HmA : m <= A).
  { pose proof (Z.div_mod (Zpos M) (2 ^ n) ltac:(lia)) as Hdm.
    fold q in Hdm.
    pose proof (Z.mod_pos_bound (Zpos M) (2 ^ n) Hp) as Hr.
    destruct (Z.eq_dec (Zpos M mod 2 ^ n) 0) as [H0 | Hn0].
    - rewrite (Hm3 H0). nia.
    - destruct (Z_le_gt_dec (q + 1) A) as [H|H]; [lia|]. exfalso. nia. }
  unfold finish. destruct m as [|p|p].
  - left. reflexivity.
  - right. destruct (Z.eqb_spec (Zpos p) 9007199254740992) as [Heq | Hne].
    + assert (Hlt : e' < ex).
      { destruct (Z.eq_dec e' ex) as [E0|]; [|lia]. exfalso.
        unfold A in HmA. rewrite E0, Z.sub_diag in HmA. simpl in HmA. lia. }
      replace (e' + 1 <=? 971) with true by (symmetry; apply Z.leb_le; lia).
      exists 4503599627370496%positive, (e' + 1). split; [reflexivity|].
      apply lex_upper; try assumption; try lia.
      rewrite (sv_shift (Zpos mx) e' ex) by lia. fold A.
      rewrite (sv_shift _ e' (e' + 1)) by lia.
      replace (e' + 1 - e') with 1 by lia.
      apply sv_le_iff; [lia|]. change (2 ^ 1) with 2. lia.
    + replace (e' <=? 971) with true by (symmetry; apply Z.leb_le; lia).
      exists p, e'. split; [reflexivity|].
      apply lex_upper; try assumption.
      rewrite (sv_shift (Zpos mx) e' ex) by lia. fold A.
      apply sv_le_iff; lia.
  - exfalso. assert (0 <= q) by (apply Z.div_pos; lia). lia.
Qed.

Lemma pos_iter_xO (m d : positive) :
  Zpos (Pos.iter xO m d) = Zpos m * 2 ^ Zpos d
  /\ dig (Pos.iter xO m d) = dig m + Zpos d.
Proof.
  induction d as [|d IH] using Pos.peano_ind.
  - split; [simpl; lia|]. unfold dig. simpl. lia.
  - rewrite Pos.iter_succ. destruct IH as [IHv IHd]. split.
    + rewrite Pos2Z.inj_xO, IHv, Pos2Z.inj_succ, Z.pow_succ_r by lia. lia.
    + unfold dig in *. cbn [digits2_pos]. rewrite Pos2Z.inj_succ, IHd. lia.
Qed.

Lemma shl_align_value (mx : positive) (ex ez : Z) :
  -1074 <= ez -> ez <= ex ->
  sv (Zpos (fst (shl_align mx ex ez))) ez = sv (Zpos mx) ex.
Proof.
  intros Hz Hle. unfold shl_align.
  destruct (ez - ex) as [|d|d] eqn:Hd; cbn [fst].
  - replace ez with ex by lia. reflexivity.
  - lia.
  - destruct (pos_iter_xO mx d) as [-> _].
    rewrite (sv_shift (Zpos mx) ez ex) by lia.
    replace (ex - ez) with (Zpos d) by lia. reflexivity.
Qed.

Lemma binary_round_shl (s : bool) (M : positive) (E : Z) :
  -1074 <= E ->
  exists (M' : positive) (E' : Z),
    binary_round prec emax s M E
    = binary_round_aux prec emax s (Zpos M') E' loc_Exact
    /\ sv (Zpos M') E' = sv (Zpos M) E
    /\ -1074 <= E'
    /\ E' <= fexp prec emax (dig M' + E').
Proof.
  intro HE. unfold binary_round, shl_align. fold (dig M).
  pose proof (fexp64 (dig M + E)) as Hf.
  destruct (fexp prec emax (dig M + E) - E) as [|d|d] eqn:Hd.
  - exists M, E. repeat split; lia.
  - exists M, E. repeat split; lia.
  - destruct (pos_iter_xO M d) as [Hv Hdig].
    exists (Pos.iter xO M d), (fexp prec emax (dig M + E)).
    split; [reflexivity|]. split; [|split].
    + rewrite Hv. rewrite (sv_shift (Zpos M) (fexp prec emax (dig M + E)) E) by lia.
      replace (E - fexp prec emax (dig M + E)) with (Zpos d) by lia.
      reflexivity.
    + lia.
    + rewrite Hdig.
      replace (dig M + Zpos d + fexp prec emax (dig M + E)) with (dig M + E)
        by lia.
      lia.
Qed.

Lemma binary_round_lower (s : bool) (M : positive) (E : Z) (mx : positive)
    (ex : Z) :
  bounded prec emax mx ex = true ->
  -1074 <= E ->
  sv (Zpos mx) ex <= sv (Zpos M) E ->
  binary_round prec emax s M E = S754_infinity s
  \/ exists m e,
       binary_round prec emax s M E = S754_finite s m e
       /\ (ex < e \/ (ex = e /\ Zpos mx <= Zpos m)).
Proof.
  intros Hb HE Hv.
  destruct (binary_round_shl s M E HE) as [M' [E' [-> [Hsv [HE' Hle]]]]].
  apply round_lower; try assumption. rewrite Hsv. exact Hv.
Qed.

Lemma binary_round_upper (s : bool) (M : positive) (E : Z) (mx : positive)
    (ex : Z) :
  bounded prec emax mx ex = true ->
  -1074 <= E ->
  sv (Zpos M) E <= sv (Zpos mx) ex ->
  binary_round prec emax s M E = S754_zero s
  \/ exists m e,
       binary_round prec emax s M E = S754_finite s m e
       /\ (e < ex \/ (e = ex /\ Zpos m <= Zpos mx)).
Proof.
  intros Hb HE Hv.
  destruct (binary_round_shl s M E HE) as [M' [E' [-> [Hsv [HE' Hle]]]]].
  apply round_upper; try assumption. rewrite Hsv. exact Hv.
Qed.

Lemma binary_round_sign (s : bool) (M : positive) (E : Z) :
  -1074 <= E ->
  binary_round prec emax s M E = S754_zero s
  \/ binary_round prec emax s M E = S754_infinity s
  \/ exists m e, binary_round prec emax s M E = S754_finite s m e.
Proof.
  intro HE.
  destruct (binary_round_shl s M E HE) as [M' [E' [-> [_ [HE' Hle]]]]].
  destruct (binary_round_aux_spec s M' E' HE' Hle) as [m [Hm1 [_ [_ [_ ->]]]]].
  assert (0 <= Zpos M' / 2 ^ (fexp prec emax (dig M' + E') - E')).
  { apply Z.div_pos; [lia|]. apply Z.pow_pos_nonneg; lia. }
  unfold finish. destruct m as [|p|p]; [auto | | lia].
  destruct (Zpos p =? 9007199254740992).
  - destruct (_ <=? 971); eauto.
  - destruct (_ <=? 971); eauto.
Qed.

Lemma sv_add (a b e : Z) : sv (a + b) e = sv a e + sv b e.
Proof. unfold sv. lia. Qed.

Lemma sv_two : sv 4503599627370496 (-51) = 2 ^ 1075.
Proof. reflexivity. Qed.

Lemma pos_le_compare (a b : positive) :
  Zpos a <= Zpos b -> Pos.compare_cont Eq a b <> Gt.
Proof.
  intro H. change (Pos.compare_cont Eq a b) with (Pos.compare a b).
  apply Pos.compare_le_iff. lia.
Qed.

Lemma SFadd_two_ge (x : spec_float) :
  valid_binary x = true -> x <> S754_nan ->
  SFleb x (SF64add x sf_two) = true.
Proof.
  intros Hv Hn. destruct x as [s|s| |sx mx ex].
  - destruct s; reflexivity.
  - destruct s; reflexivity.
  - contradiction.
  - simpl in Hv.
    destruct (bounded_facts mx ex Hv) as [Hex _].
    unfold SF64add, SFadd, sf_two.
    set (ez := Z.min ex (-51)).
    assert (Hez : -1074 <= ez) by (unfold ez; lia).
    pose proof (shl_align_value mx ex ez Hez ltac:(unfold ez; lia)) as Ha.
    pose proof (shl_align_value 4503599627370496 (-51) ez Hez
                  ltac:(unfold ez; lia)) as Hb.
    rewrite sv_two in Hb.
    set (pa := fst (shl_align mx ex ez)) in *.
    set (pb := fst (shl_align 4503599627370496 (-51) ez)) in *.
    assert (Hpos : 0 < 2 ^ 1075) by (apply Z.pow_pos_nonneg; lia).
    destruct sx; cbn [cond_Zopp].
    + (* a negative number *)
      remember (- Zpos pa + Zpos pb) as S eqn:HS.
      destruct S as [|p|p]; cbn [binary_normalize].
      * reflexivity.
      * destruct (binary_round_sign false p ez Hez)
          as [-> | [-> | [m [e ->]]]]; reflexivity.
      * assert (Hle : sv (Zpos p) ez <= sv (Zpos mx) ex).
        { replace (Zpos p) with (Zpos pa + - Zpos pb) by lia.
          rewrite sv_add, Ha. unfold sv at 2.
          pose proof (sv_pos_factor ez Hez). nia. }
        destruct (binary_round_upper true p ez mx ex Hv Hez Hle)
          as [-> | [m [e [-> Hlex]]]]; [reflexivity|].
        unfold SFleb, SFcompare.
        destruct Hlex as [Hlt | [-> Hm]].
        -- replace (ex ?= e) with Gt by (symmetry; apply Z.compare_gt_iff; lia).
           reflexivity.
        -- rewrite Z.compare_refl.
           pose proof (pos_le_compare m mx Hm) as Hc.
           change (Pos.compare_cont Eq m mx) with (Pos.compare m mx) in Hc.
           change (Pos.compare_cont Eq mx m) with (Pos.compare mx m).
           rewrite (Pos.compare_antisym m mx), CompOpp_involutive.
           destruct (Pos.compare m mx); try reflexivity; congruence.
    + (* a positive number *)
      change (Zpos pa + Zpos pb) with (Zpos (pa + pb)).
      cbn [binary_normalize].
      assert (Hle : sv (Zpos mx) ex <= sv (Zpos (pa + pb)) ez).
      { rewrite Pos2Z.inj_add, sv_add, Ha, Hb. lia. }
      destruct (binary_round_lower false (pa + pb) ez mx ex Hv Hez Hle)
        as [-> | [m [e [-> Hlex]]]]; [reflexivity|].
      unfold SFleb, SFcompare.
      destruct Hlex as [Hlt | [-> Hm]].
      * replace (ex ?= e) with Lt by (symmetry; apply Z.compare_lt_iff; lia).
        reflexivity.
      * rewrite Z.compare_refl.
        pose proof (pos_le_compare mx m Hm) as Hc.
        destruct (Pos.compare_cont Eq mx m); try reflexivity; congruence.
Qed.

Lemma prim_two : Prim2SF 2%float = sf_two.
Proof. vm_compute. reflexivity. Qed.

Lemma is_nan_spec (x : float) :
  PrimFloat.is_nan x = false -> Prim2SF x <> S754_nan.
Proof.
  intro H. unfold Prim2SF. rewrite H.
  destruct (PrimFloat.is_zero x); [discriminate|].
  destruct (PrimFloat.is_infinity x); [discriminate|].
  destruct (Z.frexp x) as [r e].
  destruct (shr_fexp _ _ _ _ _) as [mrs e'].
  destruct (shr_m mrs); discriminate.
Qed.

Lemma add_two_ge (x : float) :
  PrimFloat.is_nan x = false -> (x <=? x + 2)%float = true.
Proof.
  intro H. rewrite FloatAxioms.leb_spec, FloatAxioms.add_spec, prim_two.
  apply SFadd_two_ge; [apply Prim2SF_valid | apply is_nan_spec, H].
Qed.

End AddTwo.

(** ** [strip] against the description of trimming *)

Section TrimFacts.

Lemma strip_trimmed_of (s : pystr) : trimmed_of s (strip s).
Proof.
  split; [apply strip_split|]. split; intros c u E.
  - apply (strip_head s c u E).
  - apply (strip_last s c u E).
Qed.

(** The description determines the result. *)
Lemma trimmed_of_unique (s t : pystr) : trimmed_of s t -> t = strip s.
Proof.
  intros [[l [r [Hs [Hl Hr]]]] [Hhead Hlast]]. subst s.
  destruct t as [|c u].
  - simpl. symmetry. apply strip_all_space.
    rewrite all_space_app, Hl, Hr. reflexivity.
  - assert (Hc : isspace c = false) by (apply (Hhead c u); reflexivity).
    assert (Hne : c :: u <> []) by discriminate.
    destruct (exists_last Hne) as [v [d Hv]].
    assert (Hd : isspace d = false) by (apply (Hlast d v); exact Hv).
    unfold strip. rewrite lstrip_app_all_space by exact Hl.
    assert (Hls : lstrip ((c :: u) ++ r) = (c :: u) ++ r)
      by (simpl; rewrite Hc; reflexivity).
    rewrite Hls. unfold rstrip. rewrite rev_app_distr.
    rewrite lstrip_app_all_space by (rewrite all_space_rev; exact Hr).
    rewrite Hv, rev_app_distr. simpl. rewrite Hd. simpl.
    rewrite rev_involutive. reflexivity.
Qed.

End TrimFacts.

(** ** Checks on concrete inputs *)

Example strip_hello : strip (lit "  hello  ") = lit "hello".
Proof. reflexivity. Qed.

Example join_three :
  join (lit ", ") [lit "a"; lit "b"; lit "c"] = lit "a, b, c".
Proof. reflexivity. Qed.

Example untimed_is_dropped :
  normalize [untimed_fragment] = Raise EmptyTranscriptError.
Proof. reflexivity. Qed.

Example all_dropped_fails :
  normalize all_dropped = Raise EmptyTranscriptError.
Proof. reflexivity. Qed.

Example of_seconds_exact :
  Timedelta.of_seconds 4.5%float = Return 4500000.
Proof. vm_compute. reflexivity. Qed.

Example of_seconds_negative :
  Timedelta.of_seconds (-0.5)%float = Return (-500000).
Proof. vm_compute. reflexivity. Qed.

Example of_seconds_infinite :
  Timedelta.of_seconds infinity = Raise OverflowError.
Proof. vm_compute. reflexivity. Qed.

Example timestamp_fields :
  Srt.timedelta_to_srt_timestamp 3661999900 = lit "01:01:01,999".
Proof. vm_compute. reflexivity. Qed.

(** ** The claims *)

(** C1: given a fragment collection, [_build_segments] fails with
    [EmptyTranscriptError] if and only if no fragment survives the three
    drop rules (missing timing, missing start, empty trimmed text);
    otherwise it returns the non-empty list of the survivors' segments. *)
Theorem build_segments_empty_iff (pipe : pystr -> pipe_result)
    (input_path : pystr) (segments : list chunk) :
  chunks (pipe input_path) = Some segments ->
  (_build_segments pipe input_path = Raise EmptyTranscriptError
   <-> filter survives segments = [])
  /\ (filter survives segments <> [] ->
      exists items,
        _build_segments pipe input_path = Return items
        /\ items <> []
        /\ Forall2 emitted_from (filter survives segments) items).
Proof.
  intro Hc. unfold _build_segments. rewrite Hc.
  pose proof (emit_all_survivors segments 1) as HF.
  rewrite normalize_emit_all.
  pose proof (Forall2_nil_iff _ _ _ HF) as Hnil.
  destruct (emit_all 1 segments) as [|it rest].
  - split.
    + split; intro; [apply Hnil|]; reflexivity.
    + intro Hne. exfalso. apply Hne. apply Hnil. reflexivity.
  - split.
    + split; intro H; [discriminate|].
      apply Hnil in H. discriminate.
    + intros _. exists (it :: rest). repeat split; [discriminate | exact HF].
Qed.

Lemma build_segments_empty_iff_witness :
  chunks (stub_pipe {| chunks := Some all_dropped |} []) = Some all_dropped
  /\ _build_segments (stub_pipe {| chunks := Some all_dropped |}) []
     = Raise EmptyTranscriptError.
Proof.
  split; [reflexivity|].
  apply (build_segments_empty_iff
           (stub_pipe {| chunks := Some all_dropped |}) [] all_dropped
           eq_refl).
  reflexivity.
Defined.

(** C2: the segment emitted for an accepted fragment with start [s] and a
    null end has end [s + 2.0]. The k-th accepted fragment yields the k-th
    segment. *)
Theorem fallback_end_time (segments : list chunk) (items : list item)
    (k : nat) (f : chunk) (s : float) :
  normalize segments = Return items ->
  nth_error (filter survives segments) k = Some f ->
  chunk_timestamp f = Some (Some s, None) ->
  exists it,
    nth_error items k = Some it
    /\ item_start it = s
    /\ item_end it = (s + 2.0)%float.
Proof.
  intros Hn Hk Ht.
  destruct (Forall2_nth_error_l _ _ _ (normalize_survivors _ _ Hn) k f Hk)
    as [it [Hit [Hs [He _]]]].
  exists it. unfold chunk_start, chunk_end in *. rewrite Ht in *.
  injection Hs as Hs. subst s. auto.
Qed.

Lemma fallback_end_time_witness :
  normalize scenario_fragments = Return scenario_segments
  /\ exists it,
       nth_error scenario_segments 1 = Some it
       /\ item_start it = 2.5%float
       /\ item_end it = (2.5 + 2.0)%float.
Proof.
  split; [reflexivity|].
  apply (fallback_end_time scenario_fragments scenario_segments 1
           (fragment (Some 2.5%float) None (Some (lit "world"))) 2.5%float);
    reflexivity.
Defined.

(** C3: the ids of the emitted segments are exactly 1, 2, ..., N in output
    order, N the number of accepted fragments; one iteration advances the
    id counter by one when it accepts the fragment and leaves it unchanged
    when it skips it. *)
Theorem ids_are_one_to_N (segments : list chunk) (st : list item * Z)
    (f : chunk) :
  (exists items,
      for_each loop_body segments ([], 1)
      = Return (items, 1 + Z.of_nat (List.length (filter survives segments)))
      /\ List.length items = List.length (filter survives segments)
      /\ List.map item_id items
         = List.map Z.of_nat (seq 1 (List.length (filter survives segments)))
      /\ normalize segments
         = match items with
           | [] => Raise EmptyTranscriptError
           | _ :: _ => Return items
           end)
  /\ (exists next,
        loop_body st f = Return next
        /\ snd next = (if survives f then snd st + 1 else snd st)
        /\ List.map item_id (fst next)
           = (if survives f then List.map item_id (fst st) ++ [snd st]
              else List.map item_id (fst st))).
Proof.
  split.
  - exists (emit_all 1 segments).
    pose proof (emit_all_ids segments 1) as Hids.
    assert (Hlen : List.length (emit_all 1 segments)
                   = List.length (filter survives segments)).
    { rewrite <- (length_map item_id), Hids.
      generalize (List.length (filter survives segments)) 1.
      induction n as [|n IH]; intro z; simpl; [reflexivity|].
      f_equal. apply IH. }
    repeat split.
    + rewrite for_each_emit_all, Hlen. reflexivity.
    + exact Hlen.
    + rewrite Hids. apply (ids_from_seq _ 1%nat).
    + rewrite normalize_emit_all. destruct (emit_all 1 segments); reflexivity.
  - destruct st as [items i]. rewrite loop_body_segment_of.
    destruct (survives f) eqn:Hf.
    + destruct (segment_of_survives i f Hf) as [it [-> [_ Hi]]].
      eexists. split; [reflexivity|]. simpl.
      rewrite map_app, <- Hi. auto.
    + rewrite (segment_of_dropped i f Hf).
      eexists. split; [reflexivity|]. simpl. auto.
Qed.

(** C4: a fragment with no start is never emitted, whatever its end and
    text; a fragment whose trimmed text is empty is never emitted, whatever
    its timing; and the text of every emitted segment is non-empty and is
    the text of its fragment with the whitespace at both ends removed. *)
Theorem drop_rules_and_trimmed_text (pre post : list chunk) (f : chunk)
    (segments : list chunk) (items : list item) (k : nat) (it : item) :
  (chunk_start f = None ->
   normalize (pre ++ f :: post) = normalize (pre ++ post))
  /\ (strip (text_or_empty f) = [] ->
      normalize (pre ++ f :: post) = normalize (pre ++ post))
  /\ (normalize segments = Return items -> nth_error items k = Some it ->
      item_text it <> []
      /\ exists g,
           nth_error (filter survives segments) k = Some g
           /\ In g segments
           /\ chunk_start g <> None
           /\ item_text it = strip (text_or_empty g)
           /\ (exists l r,
                 text_or_empty g = l ++ item_text it ++ r
                 /\ all_space l = true /\ all_space r = true)
           /\ (forall c t, item_text it = c :: t -> isspace c = false)
           /\ (forall c t, item_text it = t ++ [c] -> isspace c = false)).
Proof.
  split; [|split].
  - intro H. apply normalize_drop, missing_start_dropped, H.
  - intro H. apply normalize_drop, empty_text_dropped, H.
  - intros Hn Hk.
    destruct (Forall2_nth_error_r _ _ _ (normalize_survivors _ _ Hn) k it Hk)
      as [g [Hg [Hs [_ Ht]]]].
    pose proof (nth_error_In _ _ Hg) as Hin.
    apply filter_In in Hin. destruct Hin as [Hin Hsurv].
    unfold trimmed_text in Ht. split.
    + unfold survives, empty_trimmed_text, trimmed_text in Hsurv.
      rewrite <- Ht in Hsurv. intro E. rewrite E in Hsurv.
      rewrite andb_false_r in Hsurv. discriminate.
    + exists g. repeat split; try assumption.
      * rewrite Hs. discriminate.
      * rewrite Ht. apply strip_split.
      * intros c t E. rewrite Ht in E. apply (strip_head _ _ _ E).
      * intros c t E. rewrite Ht in E. apply (strip_last _ _ _ E).
Qed.

Lemma drop_rules_and_trimmed_text_witness :
  normalize ([inverted_fragment] ++ blank_fragment :: scenario_fragments)
  = normalize ([inverted_fragment] ++ scenario_fragments)
  /\ (chunk_start blank_fragment = None
      /\ strip (text_or_empty blank_fragment) = [])
  /\ item_text {| item_id := 1; item_start := 0%float;
                  item_end := 2.5%float; item_text := lit "Hello" |} <> [].
Proof.
  pose proof (drop_rules_and_trimmed_text
                [inverted_fragment] scenario_fragments blank_fragment
                scenario_fragments scenario_segments 0
                {| item_id := 1; item_start := 0%float;
                   item_end := 2.5%float; item_text := lit "Hello" |})
    as [_ [Htext Hemit]].
  assert (Hblank : strip (text_or_empty blank_fragment) = [])
    by reflexivity.
  pose proof (Htext Hblank) as Hsame.
  split; [exact Hsame|]. split; [split; reflexivity|].
  apply Hemit; reflexivity.
Defined.

(** C5: the scenario of section 8. The two fragments normalise to the two
    segments, which render as the two SubRip blocks and as the transcript
    text "Hello world". *)
Theorem concrete_scenario :
  normalize scenario_fragments = Return scenario_segments
  /\ _segments_to_srt scenario_segments = Return scenario_srt
  /\ response_text (_segments_to_response scenario_segments)
     = lit "Hello world"
  /\ response_segments (_segments_to_response scenario_segments)
     = scenario_segments.
Proof. repeat split; vm_compute; reflexivity. Qed.

(** C6: for a non-empty segment list, [_segments_to_response] returns as
    text the trimmed texts of the segments, a single space between
    consecutive ones, in list order, the whole trimmed; and as segments the
    list it was given. Trimming is described by [trimmed_of], not by the
    [strip] of the code. *)
Theorem segments_to_response_spec (segments : list item) :
  segments <> [] ->
  exists texts : list pystr,
    Forall2 (fun seg t => trimmed_of (item_text seg) t) segments texts
    /\ trimmed_of (joined_with_space texts)
         (response_text (_segments_to_response segments))
    /\ response_segments (_segments_to_response segments) = segments.
Proof.
  intros _.
  exists (List.map (fun seg => strip (item_text seg)) segments).
  split; [|split].
  - induction segments as [|seg rest IH]; simpl; constructor.
    + apply strip_trimmed_of.
    + exact IH.
  - unfold _segments_to_response. simpl. rewrite join_space.
    apply strip_trimmed_of.
  - reflexivity.
Qed.

Lemma segments_to_response_spec_witness :
  padded_segments <> []
  /\ exists texts : list pystr,
       Forall2 (fun seg t => trimmed_of (item_text seg) t)
         padded_segments texts
       /\ trimmed_of (joined_with_space texts)
            (response_text (_segments_to_response padded_segments))
       /\ response_segments (_segments_to_response padded_segments)
          = padded_segments.
Proof.
  split; [discriminate|].
  apply (segments_to_response_spec padded_segments). discriminate.
Defined.

(** C7, as stated, fails: a fragment that supplies an end before its start
    is emitted with that end. *)
Lemma inverted_timing_is_emitted :
  ~ (forall (segments : list chunk) (items : list item) (it : item),
        normalize segments = Return items -> In it items ->
        end_not_before_start it = true).
Proof.
  intro H.
  specialize (H [inverted_fragment]
                [ {| item_id := 1; item_start := 5%float;
                     item_end := 1%float; item_text := lit "x" |} ]
                {| item_id := 1; item_start := 5%float;
                   item_end := 1%float; item_text := lit "x" |}
                eq_refl (or_introl eq_refl)).
  vm_compute in H. discriminate.
Qed.

(** C7, amended: a fragment with no end is emitted with end = start + 2.0,
    which is not before start whenever start is a number (not a NaN); a
    fragment that supplies an end is emitted with that end, unchecked. So
    every emitted segment whose start is a number has its end not before
    its start as soon as the accepted fragments that supply an end do. *)
Theorem timing_is_inherited (segments : list chunk) (items : list item) :
  normalize segments = Return items ->
  Forall2 (fun f it =>
             chunk_start f = Some (item_start it)
             /\ match chunk_end f with
                | Some e => item_end it = e
                | None =>
                    item_end it = (item_start it + 2.0)%float
                    /\ (PrimFloat.is_nan (item_start it) = false ->
                        end_not_before_start it = true)
                end)
          (filter survives segments) items
  /\ ((forall f s e, In f segments -> survives f = true ->
                     chunk_timestamp f = Some (Some s, Some e) ->
                     (s <=? e)%float = true) ->
      forall it, In it items ->
                 PrimFloat.is_nan (item_start it) = false ->
                 end_not_before_start it = true).
Proof.
  intro Hn. pose proof (normalize_survivors _ _ Hn) as HF.
  assert (Hfall : forall f it,
             emitted_from f it -> chunk_end f = None ->
             PrimFloat.is_nan (item_start it) = false ->
             end_not_before_start it = true).
  { intros f it [_ [He _]] Hnone Hnan. unfold end_not_before_start.
    rewrite He, Hnone. simpl. apply add_two_ge, Hnan. }
  split.
  - eapply Forall2_impl; [|exact HF].
    intros f it Hem. pose proof Hem as [Hs [He _]]. split; [exact Hs|].
    destruct (chunk_end f) as [e|] eqn:Hend.
    + rewrite He. reflexivity.
    + split; [rewrite He; reflexivity|]. apply (Hfall f it Hem Hend).
  - intros Hord it Hin Hnan.
    destruct (Forall2_In_r _ _ _ HF it Hin) as [f [Hf Hem]].
    apply filter_In in Hf. destruct Hf as [Hf Hsurv].
    destruct (chunk_end f) as [e|] eqn:Hend.
    + destruct Hem as [Hs [He _]]. unfold end_not_before_start.
      rewrite He, Hend. simpl. apply (Hord f _ _ Hf Hsurv).
      unfold chunk_start, chunk_end in Hs, Hend.
      destruct (chunk_timestamp f) as [[s' e']|]; [|discriminate].
      rewrite Hs, Hend. reflexivity.
    + apply (Hfall f it Hem Hend Hnan).
Qed.

Lemma timing_is_inherited_witness :
  normalize scenario_fragments = Return scenario_segments
  /\ forall it, In it scenario_segments ->
                PrimFloat.is_nan (item_start it) = false ->
                end_not_before_start it = true.
Proof.
  split; [reflexivity|].
  apply (timing_is_inherited scenario_fragments scenario_segments eq_refl).
  intros f s e [<- | [<- | []]] _ Ht.
  - injection Ht as <- <-. reflexivity.
  - discriminate Ht.
Defined.

(** The restriction to a start that is a number is needed: a NaN start
    with no end is emitted, and NaN + 2.0 is not comparable to it. *)
Example nan_start_is_not_ordered :
  exists it,
    normalize [nan_fragment] = Return [it]
    /\ end_not_before_start it = false.
Proof. eexists. split; reflexivity. Qed.

(** C8: when the pipeline result has no fragment collection,
    [_build_segments] fails with [MissingUpstreamOutputError], which is not
    [EmptyTranscriptError], and returns no segment list. *)
Theorem missing_chunks_error (pipe : pystr -> pipe_result)
    (input_path : pystr) :
  chunks (pipe input_path) = None ->
  _build_segments pipe input_path = Raise MissingUpstreamOutputError
  /\ MissingUpstreamOutputError <> EmptyTranscriptError
  /\ forall items, _build_segments pipe input_path <> Return items.
Proof.
  intro Hc. unfold _build_segments. rewrite Hc.
  repeat split; intros; discriminate.
Qed.

Lemma missing_chunks_error_witness :
  chunks (stub_pipe {| chunks := None |} []) = None
  /\ _build_segments (stub_pipe {| chunks := None |}) []
     = Raise MissingUpstreamOutputError.
Proof.
  split; [reflexivity|].
  apply (missing_chunks_error (stub_pipe {| chunks := None |}) []).
  reflexivity.
Defined.

(** C9: a fragment whose text is absent or null raises nothing: its
    iteration leaves the loop state as it is, exactly as for a text of
    whitespace only, and [normalize] gives what it gives without the
    fragment. *)
Theorem null_text_is_skipped (pre post : list chunk) (f : chunk)
    (ws : pystr) (st : list item * Z) :
  chunk_text f = None ->
  all_space ws = true ->
  py_strip (py_or (chunk_text f) (Some [])) = Return []
  /\ loop_body st f = Return st
  /\ loop_body st {| chunk_timestamp := chunk_timestamp f;
                     chunk_text := Some ws |} = Return st
  /\ normalize (pre ++ f :: post) = normalize (pre ++ post)
  /\ normalize (pre ++ f :: post)
     = normalize (pre ++ {| chunk_timestamp := chunk_timestamp f;
                            chunk_text := Some ws |} :: post).
Proof.
  intros Hnull Hws.
  set (g := {| chunk_timestamp := chunk_timestamp f; chunk_text := Some ws |}).
  assert (Hf : survives f = false) by (apply null_text_dropped, Hnull).
  assert (Hg : survives g = false).
  { apply empty_text_dropped. unfold trimmed_text, text_or_empty. simpl.
    apply strip_all_space, Hws. }
  destruct st as [items i]. repeat split.
  - rewrite Hnull. reflexivity.
  - rewrite loop_body_segment_of, (segment_of_dropped i f Hf). reflexivity.
  - rewrite loop_body_segment_of, (segment_of_dropped i g Hg). reflexivity.
  - apply normalize_drop, Hf.
  - rewrite (normalize_drop pre post f Hf), (normalize_drop pre post g Hg).
    reflexivity.
Qed.

Lemma null_text_is_skipped_witness :
  chunk_text null_text_fragment = None
  /\ all_space (lit "  ") = true
  /\ loop_body ([], 1) null_text_fragment = Return ([], 1)
  /\ normalize (scenario_fragments ++ null_text_fragment :: [inverted_fragment])
     = normalize (scenario_fragments ++ [inverted_fragment]).
Proof.
  pose proof (null_text_is_skipped scenario_fragments [inverted_fragment]
                null_text_fragment (lit "  ") ([], 1) eq_refl eq_refl)
    as [_ [Hbody [_ [Hdrop _]]]].
  repeat split; assumption.
Defined.

(** C10: [_segments_to_response] on the empty list raises nothing and
    returns the empty text and the empty list. *)
Theorem segments_to_response_empty :
  _segments_to_response []
  = {| response_text := []; response_segments := [] |}.
Proof. reflexivity. Qed.

(** ** Further properties of [_build_segments] *)

Section NormalizeMore.

Lemma segment_of_shift (k i : Z) (f : chunk) :
  segment_of (i + k) f = option_map (renumber k) (segment_of i f).
Proof.
  unfold segment_of. destruct (chunk_start f) as [s|]; [|reflexivity].
  destruct (empty_trimmed_text f); reflexivity.
Qed.

Lemma emit_all_shift (k : Z) (fs : list chunk) :
  forall i, emit_all (i + k) fs = List.map (renumber k) (emit_all i fs).
Proof.
  induction fs as [|f fs IH]; intro i; simpl; [reflexivity|].
  rewrite segment_of_shift. destruct (segment_of i f) as [it|]; simpl.
  - f_equal. rewrite <- IH. f_equal. lia.
  - apply IH.
Qed.

Lemma emit_all_length (fs : list chunk) (i : Z) :
  List.length (emit_all i fs) = List.length (filter survives fs).
Proof.
  rewrite <- (length_map item_id), emit_all_ids.
  generalize (List.length (filter survives fs)) i.
  induction n as [|n IH]; intro z; simpl; [reflexivity|].
  f_equal. apply IH.
Qed.

Lemma filter_length_bound {A : Type} (p : A -> bool) (l : list A) :
  (List.length (filter p l) <= List.length l)%nat.
Proof.
  induction l as [|x l IH]; simpl; [lia|].
  destruct (p x); simpl; lia.
Qed.

Lemma segment_of_clean (i : Z) (f : chunk) (it : item) :
  segment_of i f = Some it -> clean (item_text it) /\ item_id it = i.
Proof.
  unfold segment_of, empty_trimmed_text, clean.
  destruct (chunk_start f) as [s|]; [|discriminate].
  destruct (trimmed_text f) as [|c t] eqn:Ht; [discriminate|].
  intro H. injection H as <-. simpl. repeat split.
  - discriminate.
  - rewrite <- Ht. unfold trimmed_text. apply strip_idempotent.
Qed.

Lemma emit_all_clean (fs : list chunk) :
  forall i, Forall (fun it => clean (item_text it)) (emit_all i fs).
Proof.
  induction fs as [|f fs IH]; intro i; simpl; [constructor|].
  destruct (segment_of i f) as [it|] eqn:Hs; [|apply IH].
  constructor; [apply (segment_of_clean i f it Hs) | apply IH].
Qed.

(** Clean, consecutively numbered segments are what [emit_all] gives for
    them read as fragments. *)
Lemma emit_all_of_items (its : list item) :
  forall i,
    Forall (fun it => clean (item_text it)) its ->
    List.map item_id its = ids_from i (List.length its) ->
    emit_all i (List.map chunk_of_item its) = its.
Proof.
  induction its as [|it its IH]; intros i Hc Hid; [reflexivity|].
  inversion Hc as [|? ? [Hne Hst] Hc']; subst.
  simpl in Hid. injection Hid as Hi Hid.
  cbn [List.map emit_all].
  assert (Hseg : segment_of i (chunk_of_item it) = Some it).
  { unfold segment_of, empty_trimmed_text, trimmed_text, text_or_empty.
    cbn [chunk_of_item chunk_start chunk_end chunk_timestamp chunk_text
         resolved_end].
    rewrite Hst. destruct it as [n s e t]. simpl in *.
    destruct t; [contradiction|]. subst n. reflexivity. }
  rewrite Hseg. f_equal. apply IH; assumption.
Qed.

Lemma ids_from_bounds (n : nat) :
  forall (first z : Z), In z (ids_from first n) ->
                        first <= z < first + Z.of_nat n.
Proof.
  induction n as [|n IH]; intros first z Hin; simpl in Hin.
  - destruct Hin.
  - destruct Hin as [<- | Hin]; [lia|].
    apply IH in Hin. lia.
Qed.

End NormalizeMore.

(** X1: what [normalize] returns is a fixed point: read back as fragments
    (start, end and text of each segment), the segments normalise to
    themselves, ids included. *)
Theorem normalize_fixed_point (segments : list chunk) (items : list item) :
  normalize segments = Return items ->
  normalize (List.map chunk_of_item items) = Return items.
Proof.
  intro H. destruct (normalize_returns _ _ H) as [Heq Hne].
  rewrite normalize_emit_all, emit_all_of_items.
  - destruct items; [contradiction | reflexivity].
  - rewrite Heq. apply emit_all_clean.
  - rewrite Heq at 1. rewrite emit_all_ids, <- emit_all_length with (i := 1).
    rewrite <- Heq. reflexivity.
Qed.

Lemma normalize_fixed_point_witness :
  normalize scenario_fragments = Return scenario_segments
  /\ normalize (List.map chunk_of_item scenario_segments)
     = Return scenario_segments.
Proof.
  split; [reflexivity|].
  apply (normalize_fixed_point scenario_fragments). reflexivity.
Defined.

(** X2: [normalize] returns at least one segment and at most one per
    fragment, and every id lies between 1 and the number of fragments. *)
Theorem ids_within_input_length (segments : list chunk) (items : list item)
    (it : item) :
  normalize segments = Return items ->
  In it items ->
  (1 <= List.length items <= List.length segments)%nat
  /\ 1 <= item_id it <= Z.of_nat (List.length segments).
Proof.
  intros H Hin. destruct (normalize_returns _ _ H) as [Heq Hne].
  assert (Hlen : (List.length items <= List.length segments)%nat).
  { rewrite Heq, emit_all_length. apply filter_length_bound. }
  split.
  - split; [|exact Hlen]. destruct items; [contradiction | simpl; lia].
  - assert (Hid : In (item_id it) (List.map item_id items))
      by (apply in_map; exact Hin).
    rewrite Heq, emit_all_ids, <- emit_all_length with (i := 1), <- Heq in Hid.
    apply ids_from_bounds in Hid. lia.
Qed.

Lemma ids_within_input_length_witness :
  normalize (blank_fragment :: scenario_fragments) = Return scenario_segments
  /\ (1 <= List.length scenario_segments <= 3)%nat
  /\ 1 <= 2 <= 3.
Proof.
  split; [reflexivity|].
  apply (ids_within_input_length (blank_fragment :: scenario_fragments)
           scenario_segments
           {| item_id := 2; item_start := 2.5%float; item_end := 4.5%float;
              item_text := lit "world" |}).
  - reflexivity.
  - right. left. reflexivity.
Defined.

(** X3: normalising two batches one after the other: when each batch
    normalises, the whole gives the segments of the first followed by those
    of the second, whose ids are moved up by the number of segments of the
    first. *)
Theorem normalize_app (a b : list chunk) (ia ib : list item) :
  normalize a = Return ia ->
  normalize b = Return ib ->
  normalize (a ++ b)
  = Return (ia ++ List.map (renumber (Z.of_nat (List.length ia))) ib).
Proof.
  intros Ha Hb.
  destruct (normalize_returns _ _ Ha) as [Hia Hna].
  destruct (normalize_returns _ _ Hb) as [Hib _].
  rewrite normalize_emit_all, emit_all_app, emit_all_shift, <- Hia, <- Hib.
  destruct ia; [contradiction | reflexivity].
Qed.

Lemma normalize_app_witness :
  normalize scenario_fragments = Return scenario_segments
  /\ normalize (scenario_fragments ++ scenario_fragments)
     = Return (scenario_segments
                 ++ List.map (renumber 2) scenario_segments).
Proof.
  split; [reflexivity|].
  apply (normalize_app scenario_fragments scenario_fragments); reflexivity.
Defined.

(** X4: a batch in which no fragment is usable contributes nothing, before
    or after another batch. *)
Theorem normalize_app_empty_batch (a b : list chunk) :
  normalize a = Raise EmptyTranscriptError ->
  normalize (a ++ b) = normalize b /\ normalize (b ++ a) = normalize b.
Proof.
  intro Ha. rewrite normalize_emit_all in Ha.
  destruct (emit_all 1 a) as [|x r] eqn:Hea; [|discriminate].
  assert (Hany : forall i, emit_all i a = []).
  { intro i. replace i with (1 + (i - 1)) by lia.
    rewrite emit_all_shift, Hea. reflexivity. }
  rewrite !normalize_emit_all, !emit_all_app, !Hany.
  simpl. rewrite app_nil_r. split; reflexivity.
Qed.

Lemma normalize_app_empty_batch_witness :
  normalize all_dropped = Raise EmptyTranscriptError
  /\ normalize (all_dropped ++ scenario_fragments)
     = normalize scenario_fragments
  /\ normalize (scenario_fragments ++ all_dropped)
     = normalize scenario_fragments.
Proof.
  split; [reflexivity|].
  apply (normalize_app_empty_batch all_dropped scenario_fragments).
  reflexivity.
Defined.

(** X5: the loop and the final test of [_build_segments] (lines 40-74),
    on any fragment list, end in one of two ways: a non-empty segment list,
    or the [RuntimeError] of line 72. No empty list is returned, and
    reading a fragment (a text that is absent, [None] or a string) raises
    nothing. *)
Theorem normalize_outcomes (segments : list chunk) :
  (exists items, normalize segments = Return items /\ items <> [])
  \/ normalize segments = Raise EmptyTranscriptError.
Proof.
  rewrite normalize_emit_all. destruct (emit_all 1 segments) as [|it rest].
  - right. reflexivity.
  - left. exists (it :: rest). split; [reflexivity | discriminate].
Qed.

(** ** Further properties of [_segments_to_response] *)

Section ResponseMore.

Lemma clean_trimmed (s : pystr) : clean s -> trimmed s.
Proof.
  intros [Hne Hst]. split.
  - destruct s as [|c t]; [contradiction|].
    exists c, t. split; [reflexivity|].
    apply (strip_head (c :: t) c t). exact Hst.
  - destruct (exists_last Hne) as [t [c Hs]].
    exists t, c. split; [exact Hs|].
    apply (strip_last s c t). rewrite Hst. exact Hs.
Qed.

Lemma trimmed_clean (s : pystr) : trimmed s -> clean s.
Proof.
  intros [[c [t [Hs Hc]]] [u [d [Hs' Hd]]]]. split.
  - rewrite Hs. discriminate.
  - unfold strip. assert (Hl : lstrip s = s).
    { rewrite Hs. simpl. rewrite Hc. reflexivity. }
    rewrite Hl. unfold rstrip. rewrite Hs', rev_app_distr. simpl.
    rewrite Hd. simpl. rewrite rev_involutive. reflexivity.
Qed.

Lemma joined_trimmed (xs : list pystr) :
  xs <> [] -> Forall trimmed xs -> trimmed (joined_with_space xs).
Proof.
  induction xs as [|x rest IH]; intros Hne Hall; [contradiction|].
  inversion Hall as [|? ? Hx Hrest]; subst.
  destruct rest as [|y rest]; [exact Hx|].
  change (joined_with_space (x :: y :: rest))
    with (x ++ [space] ++ joined_with_space (y :: rest)).
  assert (IH' : trimmed (joined_with_space (y :: rest)))
    by (apply IH; [discriminate | exact Hrest]).
  destruct Hx as [[c [t [Hs Hc]]] _].
  destruct IH' as [_ [u [d [Hj Hd]]]].
  split.
  - exists c, (t ++ [space] ++ joined_with_space (y :: rest)).
    rewrite Hs. split; [reflexivity | exact Hc].
  - exists (x ++ [space] ++ u), d. rewrite Hj.
    split; [|exact Hd]. rewrite <- !app_assoc. reflexivity.
Qed.

Lemma all_space_joined (xs : list pystr) :
  all_space (joined_with_space xs) = forallb all_space xs.
Proof.
  induction xs as [|x rest IH]; [reflexivity|].
  destruct rest as [|y rest].
  - simpl. rewrite andb_true_r. reflexivity.
  - change (joined_with_space (x :: y :: rest))
      with (x ++ [space] ++ joined_with_space (y :: rest)).
    rewrite !all_space_app, IH. reflexivity.
Qed.

Lemma all_space_strip (s : pystr) : all_space (strip s) = all_space s.
Proof.
  destruct (all_space s) eqn:Hs.
  - rewrite (strip_all_space s Hs). reflexivity.
  - destruct (strip s) as [|c t] eqn:Hst.
    + apply strip_nil_all_space in Hst. congruence.
    + simpl. rewrite (strip_head s c t Hst). reflexivity.
Qed.

Lemma response_text_clean (items : list item) :
  items <> [] ->
  Forall (fun it => clean (item_text it)) items ->
  response_text (_segments_to_response items)
  = joined_with_space (List.map item_text items)
  /\ response_text (_segments_to_response items) <> [].
Proof.
  intros Hne Hclean.
  assert (Hmap : List.map (fun seg => strip (item_text seg)) items
                 = List.map item_text items).
  { apply map_ext_in. intros it Hin.
    rewrite Forall_forall in Hclean. apply (Hclean it Hin). }
  assert (Hj : clean (joined_with_space (List.map item_text items))).
  { apply trimmed_clean, joined_trimmed.
    - destruct items; [contradiction | discriminate].
    - apply Forall_map. eapply Forall_impl; [|exact Hclean].
      intros it Hc. apply clean_trimmed, Hc. }
  unfold _segments_to_response. simpl.
  rewrite join_space, Hmap. destruct Hj as [Hjne Hjst].
  rewrite Hjst. split; [reflexivity | exact Hjne].
Qed.

End ResponseMore.

(** X6: for the segments that [normalize] returns, the two [strip]s of
    [_segments_to_response] change nothing: the text is the segment texts
    as they are, one space between consecutive ones, and it is not
    empty. *)
Theorem response_text_of_normalized (segments : list chunk)
    (items : list item) :
  normalize segments = Return items ->
  response_text (_segments_to_response items)
  = joined_with_space (List.map item_text items)
  /\ response_text (_segments_to_response items) <> [].
Proof.
  intro H. destruct (normalize_returns _ _ H) as [Heq Hne].
  apply response_text_clean; [exact Hne|].
  rewrite Heq. apply emit_all_clean.
Qed.

Lemma response_text_of_normalized_witness :
  normalize scenario_fragments = Return scenario_segments
  /\ response_text (_segments_to_response scenario_segments)
     = joined_with_space (List.map item_text scenario_segments).
Proof.
  split; [reflexivity|].
  apply (response_text_of_normalized scenario_fragments). reflexivity.
Defined.

(** X7: whatever the segment list, the text of the response neither starts
    nor ends with a whitespace character. *)
Theorem response_text_has_no_outer_space (segments : list item) (c : N)
    (t : pystr) :
  (response_text (_segments_to_response segments) = c :: t ->
   isspace c = false)
  /\ (response_text (_segments_to_response segments) = t ++ [c] ->
      isspace c = false).
Proof.
  unfold _segments_to_response. simpl. split.
  - apply strip_head.
  - apply strip_last.
Qed.

Lemma response_text_has_no_outer_space_witness :
  isspace 72%N = false /\ isspace 100%N = false.
Proof.
  split.
  - apply (proj1 (response_text_has_no_outer_space scenario_segments 72%N
                    (lit "ello world"))). reflexivity.
  - apply (proj2 (response_text_has_no_outer_space scenario_segments 100%N
                    (lit "Hello worl"))). reflexivity.
Defined.

(** X8: the text of the response is empty exactly when every segment text
    is made of whitespace only (in particular for no segment at all). *)
Theorem response_text_empty_iff (segments : list item) :
  response_text (_segments_to_response segments) = []
  <-> forallb (fun seg => all_space (item_text seg)) segments = true.
Proof.
  unfold _segments_to_response. simpl. rewrite join_space.
  assert (Hall : all_space
                   (joined_with_space
                      (List.map (fun seg => strip (item_text seg)) segments))
                 = forallb (fun seg => all_space (item_text seg)) segments).
  { rewrite all_space_joined.
    induction segments as [|seg rest IH]; simpl; [reflexivity|].
    rewrite all_space_strip, IH. reflexivity. }
  rewrite <- Hall. split.
  - apply strip_nil_all_space.
  - apply strip_all_space.
Qed.

(** ** Properties of [_segments_to_srt] and [_run_transcription] *)

Section SrtMore.

Lemma of_seconds_raises (x : float) (e : exn) :
  Timedelta.of_seconds x = Raise e -> e = ValueError \/ e = OverflowError.
Proof.
  unfold Timedelta.of_seconds, Timedelta.modf_int.
  destruct (Prim2SF x) as [s|s| |s m ex]; cbn [bind].
  - destruct (_ && _); intro H; [discriminate|].
    injection H as <-. right. reflexivity.
  - intro H. injection H as <-. right. reflexivity.
  - intro H. injection H as <-. left. reflexivity.
  - destruct (0 <=? ex); cbn [bind];
      (destruct (_ && _); intro H; [discriminate|]);
      injection H as <-; right; reflexivity.
Qed.

Lemma of_seconds_not_finite (x : float) :
  not_finite x = true -> exists e, Timedelta.of_seconds x = Raise e.
Proof.
  unfold not_finite, Timedelta.of_seconds, Timedelta.modf_int.
  destruct (Prim2SF x) as [s|s| |s m ex]; intro H; try discriminate;
    cbn [bind]; eexists; reflexivity.
Qed.

Lemma segments_to_srt_loop (segments : list item) :
  _segments_to_srt segments
  = (subs <- for_each srt_body segments [] ;; Return (Srt.compose subs)).
Proof. reflexivity. Qed.

Lemma srt_body_raises (subs : list Srt.Subtitle) (seg : item) (e : exn) :
  srt_body subs seg = Raise e -> e = ValueError \/ e = OverflowError.
Proof.
  unfold srt_body, py_float.
  destruct (Timedelta.of_seconds (item_start seg)) as [ts|e1] eqn:Hs;
    cbn [bind].
  - destruct (Timedelta.of_seconds (item_end seg)) as [te|e2] eqn:He;
      cbn [bind]; intro H; [discriminate|].
    injection H as <-. apply (of_seconds_raises _ _ He).
  - intro H. injection H as <-. apply (of_seconds_raises _ _ Hs).
Qed.

Lemma srt_loop_raises (segments : list item) :
  forall (subs : list Srt.Subtitle) (e : exn),
    for_each srt_body segments subs = Raise e ->
    e = ValueError \/ e = OverflowError.
Proof.
  induction segments as [|seg rest IH]; intros subs e; cbn [for_each].
  - discriminate.
  - destruct (srt_body subs seg) as [subs'|e'] eqn:Hb; cbn [bind].
    + apply IH.
    + intro H. injection H as <-. apply (srt_body_raises _ _ _ Hb).
Qed.

Lemma srt_raises (segments : list item) (e : exn) :
  _segments_to_srt segments = Raise e -> e = ValueError \/ e = OverflowError.
Proof.
  rewrite segments_to_srt_loop.
  destruct (for_each srt_body segments []) as [subs|e'] eqn:Hl; cbn [bind].
  - discriminate.
  - intro H. injection H as <-. apply (srt_loop_raises _ _ _ Hl).
Qed.

Lemma srt_body_not_finite (subs : list Srt.Subtitle) (seg : item) :
  not_finite (item_start seg) = true \/ not_finite (item_end seg) = true ->
  exists e, srt_body subs seg = Raise e.
Proof.
  unfold srt_body, py_float. intros [H | H].
  - destruct (of_seconds_not_finite _ H) as [e ->]. exists e. reflexivity.
  - destruct (Timedelta.of_seconds (item_start seg)) as [ts|e1]; cbn [bind].
    + destruct (of_seconds_not_finite _ H) as [e ->]. exists e. reflexivity.
    + exists e1. reflexivity.
Qed.

Lemma srt_loop_not_finite (pre post : list item) (seg : item) :
  not_finite (item_start seg) = true \/ not_finite (item_end seg) = true ->
  forall subs, exists e, for_each srt_body (pre ++ seg :: post) subs = Raise e.
Proof.
  intro H. induction pre as [|p pre IH]; intro subs; cbn [app for_each].
  - destruct (srt_body_not_finite subs seg H) as [e ->]. exists e. reflexivity.
  - destruct (srt_body subs p) as [subs'|e]; cbn [bind].
    + apply IH.
    + exists e. reflexivity.
Qed.

End SrtMore.

(** X9: [_segments_to_srt] never raises a [RuntimeError]: what it raises
    comes from [timedelta] and is a [ValueError] or an [OverflowError]. *)
Theorem segments_to_srt_never_runtime_error (segments : list item)
    (e : exn) :
  _segments_to_srt segments = Raise e ->
  (e = ValueError \/ e = OverflowError)
  /\ forall msg, e <> RuntimeError msg.
Proof.
  intro H. pose proof (srt_raises _ _ H) as He. split; [exact He|].
  intros msg E. destruct He as [-> | ->]; discriminate.
Qed.

Lemma segments_to_srt_never_runtime_error_witness :
  _segments_to_srt nan_segments = Raise ValueError
  /\ forall msg, ValueError <> RuntimeError msg.
Proof.
  split; [reflexivity|].
  apply (segments_to_srt_never_runtime_error nan_segments ValueError).
  reflexivity.
Defined.

(** X10: a segment whose start or end is a NaN or an infinity makes
    [_segments_to_srt] raise, wherever it stands in the list: no subtitle
    text is returned for the other segments. *)
Theorem segments_to_srt_not_finite (pre post : list item) (seg : item) :
  not_finite (item_start seg) = true \/ not_finite (item_end seg) = true ->
  exists e,
    _segments_to_srt (pre ++ seg :: post) = Raise e
    /\ (e = ValueError \/ e = OverflowError).
Proof.
  intro H. rewrite segments_to_srt_loop.
  destruct (srt_loop_not_finite pre post seg H []) as [e He].
  exists e. rewrite He. split; [reflexivity|].
  apply (srt_loop_raises _ _ _ He).
Qed.

Lemma segments_to_srt_not_finite_witness :
  not_finite infinity = true
  /\ exists e,
       _segments_to_srt
         (scenario_segments
            ++ {| item_id := 3; item_start := 5%float; item_end := infinity;
                  item_text := lit "x" |} :: scenario_segments) = Raise e
       /\ (e = ValueError \/ e = OverflowError).
Proof.
  split; [reflexivity|].
  apply (segments_to_srt_not_finite scenario_segments scenario_segments
           {| item_id := 3; item_start := 5%float; item_end := infinity;
              item_text := lit "x" |}).
  right. reflexivity.
Defined.

(** X11: [_run_transcription] raises a [RuntimeError] exactly when
    [_build_segments] does, with the same message: rendering the subtitles
    adds no [RuntimeError]. It returns a text exactly when
    [_build_segments] returns segments that [_segments_to_srt] renders to
    that text. *)
Theorem run_transcription_runtime_error (pipe : pystr -> pipe_result)
    (input_path : pystr) (msg : string) (out : pystr) :
  (_run_transcription pipe input_path = Raise (RuntimeError msg)
   <-> _build_segments pipe input_path = Raise (RuntimeError msg))
  /\ (_run_transcription pipe input_path = Return out
      <-> exists items,
            _build_segments pipe input_path = Return items
            /\ _segments_to_srt items = Return out).
Proof.
  unfold _run_transcription.
  destruct (_build_segments pipe input_path) as [items|e]; cbn [bind].
  - split.
    + split; [|discriminate]. intro H.
      destruct (srt_raises _ _ H) as [E | E]; discriminate.
    + split.
      * intro H. exists items. split; [reflexivity | exact H].
      * intros [items' [Hi Ho]]. injection Hi as ->. exact Ho.
  - split.
    + split; intro H; injection H as ->; reflexivity.
    + split; [discriminate|]. intros [items [Hi _]]. discriminate.
Qed.

(** ** The endpoints [transcribe] and [transcribe_json] *)

Section EndpointFacts.

Lemma path_eqb_refl (p : pystr) : path_eqb p p = true.
Proof.
  unfold path_eqb. destruct (list_eq_dec N.eq_dec p p); congruence.
Qed.

Lemma path_eqb_false (p q : pystr) : p <> q -> path_eqb p q = false.
Proof.
  unfold path_eqb. destruct (list_eq_dec N.eq_dec p q); congruence.
Qed.

Lemma fs_write_absent (path : pystr) (data : bytes) (fs : filesystem) :
  ~ In path (fs_paths fs) -> fs_write path data fs = fs.
Proof.
  unfold fs_write, fs_paths.
  induction fs as [|entry fs IH]; simpl; intro H; [reflexivity|].
  rewrite path_eqb_false by (intro E; apply H; left; exact E).
  f_equal. apply IH. intro Hin. apply H. right. exact Hin.
Qed.

Lemma fs_filter_absent (path : pystr) (fs : filesystem) :
  ~ In path (fs_paths fs) ->
  filter (fun entry => negb (path_eqb (fst entry) path)) fs = fs.
Proof.
  unfold fs_paths.
  induction fs as [|entry fs IH]; simpl; intro H; [reflexivity|].
  rewrite path_eqb_false by (intro E; apply H; left; exact E).
  simpl. f_equal. apply IH. intro Hin. apply H. right. exact Hin.
Qed.

(** Unlinking the temporary file gives the file system back, whether or
    not the upload has been written to it. *)
Lemma fs_unlink_created (path : pystr) (fs : filesystem) :
  ~ In path (fs_paths fs) -> fs_unlink path (fs_create path fs) = Some fs.
Proof.
  intro H. unfold fs_unlink, fs_create. simpl.
  rewrite path_eqb_refl. simpl. rewrite (fs_filter_absent path fs H).
  reflexivity.
Qed.

Lemma fs_unlink_written (path : pystr) (data : bytes) (fs : filesystem) :
  ~ In path (fs_paths fs) ->
  fs_unlink path (fs_write path data (fs_create path fs)) = Some fs.
Proof.
  intro H. unfold fs_unlink, fs_create, fs_write. simpl.
  rewrite path_eqb_refl. simpl. rewrite path_eqb_refl. simpl.
  fold (fs_write path data fs).
  rewrite (fs_write_absent path data fs H), (fs_filter_absent path fs H).
  reflexivity.
Qed.

Lemma fs_read_written (path : pystr) (data : bytes) (fs : filesystem) :
  fs_read path (fs_write path data (fs_create path fs)) = Some data.
Proof.
  unfold fs_read, fs_write, fs_create. simpl.
  rewrite path_eqb_refl. simpl. rewrite path_eqb_refl. reflexivity.
Qed.

Lemma fst_finally_unlink {A : Type} (tmp_path : pystr)
    (r : (A + endpoint_exn) * filesystem) :
  fst (finally_unlink tmp_path r) = fst r.
Proof.
  unfold finally_unlink. destruct r as [outcome fs].
  destruct (fs_unlink tmp_path fs); reflexivity.
Qed.

Lemma snd_finally_unlink {A : Type} (tmp_path : pystr)
    (outcome : A + endpoint_exn) (fs fs' : filesystem) :
  fs_unlink tmp_path fs = Some fs' ->
  snd (finally_unlink tmp_path (outcome, fs)) = fs'.
Proof. unfold finally_unlink. intros ->. reflexivity. Qed.

Variable pipe : filesystem -> pystr -> pipe_result.
Variable tmpname : filesystem -> pystr -> pystr.
Variable path_suffix : pystr -> pystr.
Variable path_stem : pystr -> pystr.

(** The outcome of [transcribe_json], the file system set aside. *)
Lemma transcribe_json_outcome (file : UploadFile) (fs : filesystem) :
  fst (transcribe_json pipe tmpname path_suffix file fs) =
  match py_or (filename file) None with
  | None => inr (HTTPException 400 msg_missing_filename)
  | Some name =>
      match file_read file with
      | [] => inr (HTTPException 400 msg_empty_upload)
      | _ :: _ =>
          match _build_segments
                  (pipe (upload_fs tmpname path_suffix name file fs))
                  (upload_tmp_path tmpname path_suffix name fs)
          with
          | Raise (RuntimeError msg) => inr (HTTPException 400 msg)
          | Raise e => inr (Propagated e)
          | Return segments => inl (_segments_to_response segments)
          end
      end
  end.
Proof.
  unfold transcribe_json, upload_fs, upload_tmp_path.
  destruct (py_or (filename file) None) as [name|]; [|reflexivity].
  rewrite fst_finally_unlink.
  destruct (file_read file) as [|b data]; [reflexivity|].
  destruct (_build_segments _ _) as [segments|[msg| | |]]; reflexivity.
Qed.

(** The outcome of [transcribe]. *)
Lemma transcribe_outcome (file : UploadFile) (fs : filesystem) :
  fst (transcribe pipe tmpname path_suffix path_stem file fs) =
  match py_or (filename file) None with
  | None => inr (HTTPException 400 msg_missing_filename)
  | Some name =>
      match file_read file with
      | [] => inr (HTTPException 400 msg_empty_upload)
      | _ :: _ =>
          match _run_transcription
                  (pipe (upload_fs tmpname path_suffix name file fs))
                  (upload_tmp_path tmpname path_suffix name fs)
          with
          | Raise (RuntimeError msg) => inr (HTTPException 400 msg)
          | Raise e => inr (Propagated e)
          | Return srt_content =>
              inl {| body := srt_content;
                     media_type := lit "application/x-subrip";
                     headers :=
                       [ (lit "Content-Disposition",
                          content_disposition
                            (str_or (path_stem name) (lit "transcript"))) ] |}
          end
      end
  end.
Proof.
  unfold transcribe, upload_fs, upload_tmp_path.
  destruct (py_or (filename file) None) as [name|]; [|reflexivity].
  rewrite fst_finally_unlink.
  destruct (file_read file) as [|b data]; [reflexivity|].
  destruct (_run_transcription _ _) as [srt_content|[msg| | |]]; reflexivity.
Qed.

End EndpointFacts.

Section EndpointErrors.

Lemma build_runtime_message (pipe : pystr -> pipe_result) (path : pystr)
    (e : exn) :
  _build_segments pipe path = Raise e ->
  e = RuntimeError msg_no_segments \/ e = RuntimeError msg_no_subtitles.
Proof.
  unfold _build_segments. destruct (chunks (pipe path)) as [segs|].
  - rewrite normalize_emit_all. destruct (emit_all 1 segs); intro H.
    + injection H as <-. right. reflexivity.
    + discriminate.
  - intro H. injection H as <-. left. reflexivity.
Qed.

Lemma run_runtime_message (pipe : pystr -> pipe_result) (path : pystr)
    (msg : string) :
  _run_transcription pipe path = Raise (RuntimeError msg) ->
  _build_segments pipe path = Raise (RuntimeError msg).
Proof.
  unfold _run_transcription.
  destruct (_build_segments pipe path) as [items|e]; cbn [bind]; intro H.
  - destruct (srt_raises _ _ H) as [E | E]; discriminate.
  - injection H as ->. reflexivity.
Qed.

(** The four messages are pairwise different. *)
Lemma messages_distinct :
  msg_missing_filename <> msg_empty_upload
  /\ msg_missing_filename <> msg_no_segments
  /\ msg_missing_filename <> msg_no_subtitles
  /\ msg_empty_upload <> msg_no_segments
  /\ msg_empty_upload <> msg_no_subtitles
  /\ msg_no_segments <> msg_no_subtitles.
Proof.
  repeat split; apply String.eqb_neq; vm_compute; reflexivity.
Qed.

Lemma py_or_none_iff (name : option pystr) :
  py_or name None = None <-> name = None \/ name = Some [].
Proof.
  unfold py_or. destruct name as [[|c t]|]; simpl; split; intro H;
    try reflexivity; try discriminate; auto;
    destruct H as [H | H]; discriminate.
Qed.

Lemma py_or_some (name : option pystr) (s : pystr) :
  py_or name None = Some s -> name = Some s /\ s <> [].
Proof.
  unfold py_or. destruct name as [[|c t]|]; simpl; intro H;
    try discriminate.
  injection H as <-. split; [reflexivity | discriminate].
Qed.

End EndpointErrors.

(** Both sides raise the same [HTTPException], or neither raises one. *)
Ltac same_http_error :=
  let H := fresh "H" in
  split; intro H;
  first [ discriminate H | injection H as <- <-; reflexivity ].

(** X12: whatever the outcome of an endpoint (a response, an
    [HTTPException], any other exception), the temporary file is gone
    afterwards: when the temporary name is new, the file system is what it
    was before the request. *)
Theorem endpoints_remove_temporary_file
    (pipe : filesystem -> pystr -> pipe_result)
    (tmpname : filesystem -> pystr -> pystr)
    (path_suffix path_stem : pystr -> pystr)
    (file : UploadFile) (fs : filesystem) :
  (forall suffix, ~ In (tmpname fs suffix) (fs_paths fs)) ->
  snd (transcribe pipe tmpname path_suffix path_stem file fs) = fs
  /\ snd (transcribe_json pipe tmpname path_suffix file fs) = fs.
Proof.
  intro Hfresh. unfold transcribe, transcribe_json.
  destruct (py_or (filename file) None) as [name|]; [|split; reflexivity].
  cbv zeta.
  pose proof (Hfresh (str_or (path_suffix name) (lit ".mp4"))) as Hnew.
  destruct (file_read file) as [|b data].
  - split; apply snd_finally_unlink, fs_unlink_created, Hnew.
  - split.
    + destruct (_run_transcription _ _) as [srt_content|[msg| | |]];
        apply snd_finally_unlink, fs_unlink_written, Hnew.
    + destruct (_build_segments _ _) as [segments|[msg| | |]];
        apply snd_finally_unlink, fs_unlink_written, Hnew.
Qed.

Lemma endpoints_remove_temporary_file_witness :
  (forall suffix, ~ In (sample_tmpname sample_fs suffix) (fs_paths sample_fs))
  /\ snd (transcribe sample_pipe sample_tmpname sample_suffix sample_stem
            sample_upload sample_fs) = sample_fs
  /\ snd (transcribe_json sample_pipe sample_tmpname sample_suffix
            sample_upload sample_fs) = sample_fs.
Proof.
  assert (Hfresh : forall suffix,
             ~ In (sample_tmpname sample_fs suffix) (fs_paths sample_fs)).
  { intros suffix [E | []]. simpl in E. discriminate E. }
  split; [exact Hfresh|].
  apply (endpoints_remove_temporary_file sample_pipe sample_tmpname
           sample_suffix sample_stem sample_upload sample_fs Hfresh).
Defined.

(** X13: the two endpoints reject the same requests: one raises an
    [HTTPException] exactly when the other does, with the same status and
    the same detail. *)
Theorem endpoints_agree_on_http_errors
    (pipe : filesystem -> pystr -> pipe_result)
    (tmpname : filesystem -> pystr -> pystr)
    (path_suffix path_stem : pystr -> pystr)
    (file : UploadFile) (fs : filesystem) (status : Z) (detail : string) :
  fst (transcribe pipe tmpname path_suffix path_stem file fs)
  = inr (HTTPException status detail)
  <-> fst (transcribe_json pipe tmpname path_suffix file fs)
      = inr (HTTPException status detail).
Proof.
  rewrite transcribe_outcome, transcribe_json_outcome.
  destruct (py_or (filename file) None) as [name|]; [|same_http_error].
  destruct (file_read file) as [|b data]; [same_http_error|].
  unfold _run_transcription.
  destruct (_build_segments _ _) as [items|[msg| | |]]; cbn [bind];
    try same_http_error.
  destruct (_segments_to_srt items) as [srt_content|e] eqn:Hsrt.
  - same_http_error.
  - destruct (srt_raises _ _ Hsrt) as [-> | ->]; same_http_error.
Qed.

(** X14: every [HTTPException] of the endpoints has status 400, and its
    detail is the missing-file-name message, the empty-upload message, or
    the message of the [RuntimeError] that [_build_segments] raised for the
    temporary file. *)
Theorem http_errors_are_400
    (pipe : filesystem -> pystr -> pipe_result)
    (tmpname : filesystem -> pystr -> pystr)
    (path_suffix path_stem : pystr -> pystr)
    (file : UploadFile) (fs : filesystem) (status : Z) (detail : string) :
  fst (transcribe pipe tmpname path_suffix path_stem file fs)
  = inr (HTTPException status detail)
  \/ fst (transcribe_json pipe tmpname path_suffix file fs)
     = inr (HTTPException status detail) ->
  status = 400
  /\ (detail = msg_missing_filename
      \/ detail = msg_empty_upload
      \/ exists name,
           filename file = Some name
           /\ _build_segments
                (pipe (upload_fs tmpname path_suffix name file fs))
                (upload_tmp_path tmpname path_suffix name fs)
              = Raise (RuntimeError detail)).
Proof.
  rewrite transcribe_outcome, transcribe_json_outcome.
  destruct (py_or (filename file) None) as [name|] eqn:Hname.
  - destruct (py_or_some _ _ Hname) as [Hfile _].
    destruct (file_read file) as [|b data].
    + intros [H | H]; injection H as <- <-; auto.
    + intros [H | H].
      * destruct (_run_transcription _ _) as [srt_content|[msg| | |]] eqn:Hr;
          try discriminate.
        injection H as <- <-. apply run_runtime_message in Hr.
        split; [reflexivity|]. right. right. exists name. auto.
      * destruct (_build_segments _ _) as [segments|[msg| | |]] eqn:Hr;
          try discriminate.
        injection H as <- <-.
        split; [reflexivity|]. right. right. exists name. auto.
  - intros [H | H]; injection H as <- <-; auto.
Qed.

Lemma http_errors_are_400_witness :
  fst (transcribe_json sample_pipe sample_tmpname sample_suffix
         empty_upload sample_fs)
  = inr (HTTPException 400 msg_empty_upload)
  /\ 400 = 400.
Proof.
  split; [reflexivity|].
  apply (http_errors_are_400 sample_pipe sample_tmpname sample_suffix
           sample_stem empty_upload sample_fs 400 msg_empty_upload).
  right. reflexivity.
Defined.

Section EndpointValidation.

Variable pipe : filesystem -> pystr -> pipe_result.
Variable tmpname : filesystem -> pystr -> pystr.
Variable path_suffix : pystr -> pystr.
Variable path_stem : pystr -> pystr.

Lemma transcribe_json_rejection (file : UploadFile) (fs : filesystem)
    (status : Z) (detail : string) :
  fst (transcribe_json pipe tmpname path_suffix file fs)
  = inr (HTTPException status detail) ->
  rejection file detail.
Proof.
  rewrite transcribe_json_outcome. unfold rejection.
  destruct (py_or (filename file) None) as [name|].
  - destruct (file_read file) as [|b data].
    + intro H. injection H as _ <-. right. left.
      repeat split; discriminate.
    + destruct (_build_segments _ _) as [segments|[msg| | |]] eqn:Hr;
        intro H; try discriminate.
      injection H as _ <-. right. right.
      repeat split; try discriminate.
      destruct (build_runtime_message _ _ _ Hr) as [E | E];
        injection E as ->; auto.
  - intro H. injection H as _ <-. left. split; reflexivity.
Qed.

Lemma transcribe_rejection (file : UploadFile) (fs : filesystem)
    (status : Z) (detail : string) :
  fst (transcribe pipe tmpname path_suffix path_stem file fs)
  = inr (HTTPException status detail) ->
  rejection file detail.
Proof.
  rewrite transcribe_outcome. unfold rejection.
  destruct (py_or (filename file) None) as [name|].
  - destruct (file_read file) as [|b data].
    + intro H. injection H as _ <-. right. left.
      repeat split; discriminate.
    + destruct (_run_transcription _ _) as [srt_content|[msg| | |]] eqn:Hr;
        intro H; try discriminate.
      injection H as _ <-. right. right.
      repeat split; try discriminate.
      apply run_runtime_message in Hr.
      destruct (build_runtime_message _ _ _ Hr) as [E | E];
        injection E as ->; auto.
  - intro H. injection H as _ <-. left. split; reflexivity.
Qed.

(** The detail tells the three kinds of rejection apart. *)
Lemma rejection_missing_filename (file : UploadFile) :
  rejection file msg_missing_filename -> py_or (filename file) None = None.
Proof.
  destruct messages_distinct as [H12 [H13 [H14 _]]].
  intros [[H _] | [[_ [_ E]] | [_ [_ [E | E]]]]]; congruence.
Qed.


End EndpointValidation.

(** X15: an endpoint answers with the missing-file-name message exactly
    when the upload has no file name or an empty one; it then leaves the
    file system as it is (no temporary file is created), whatever the
    temporary names are. *)
Theorem missing_filename_rejected
    (pipe : filesystem -> pystr -> pipe_result)
    (tmpname : filesystem -> pystr -> pystr)
    (path_suffix path_stem : pystr -> pystr)
    (file : UploadFile) (fs : filesystem) :
  (fst (transcribe pipe tmpname path_suffix path_stem file fs)
   = inr (HTTPException 400 msg_missing_filename)
   <-> filename file = None \/ filename file = Some [])
  /\ (fst (transcribe_json pipe tmpname path_suffix file fs)
      = inr (HTTPException 400 msg_missing_filename)
      <-> filename file = None \/ filename file = Some [])
  /\ (filename file = None \/ filename file = Some [] ->
      snd (transcribe pipe tmpname path_suffix path_stem file fs) = fs
      /\ snd (transcribe_json pipe tmpname path_suffix file fs) = fs).
Proof.
  rewrite <- py_or_none_iff. split; [|split].
  - split; intro H.
    + apply transcribe_rejection in H. apply rejection_missing_filename, H.
    + rewrite transcribe_outcome, H. reflexivity.
  - split; intro H.
    + apply transcribe_json_rejection in H.
      apply rejection_missing_filename, H.
    + rewrite transcribe_json_outcome, H. reflexivity.
  - intro H. split.
    + unfold transcribe. rewrite H. reflexivity.
    + unfold transcribe_json. rewrite H. reflexivity.
Qed.

Lemma missing_filename_rejected_witness :
  (filename unnamed_upload = None \/ filename unnamed_upload = Some [])
  /\ snd (transcribe sample_pipe sample_tmpname sample_suffix sample_stem
            unnamed_upload sample_fs) = sample_fs
  /\ snd (transcribe_json sample_pipe sample_tmpname sample_suffix
            unnamed_upload sample_fs) = sample_fs.
Proof.
  split; [left; reflexivity|].
  apply (missing_filename_rejected sample_pipe sample_tmpname sample_suffix
           sample_stem unnamed_upload sample_fs).
  left. reflexivity.
Defined.


(** X17: a response of [transcribe_json] comes from an upload with a file
    name and a content; its segment list is not empty, its ids are 1, 2,
    ..., its text is the segment texts with one space between consecutive
    ones, and that text is not empty. *)
Theorem transcribe_json_success
    (pipe : filesystem -> pystr -> pipe_result)
    (tmpname : filesystem -> pystr -> pystr)
    (path_suffix : pystr -> pystr)
    (file : UploadFile) (fs : filesystem) (resp : response) :
  fst (transcribe_json pipe tmpname path_suffix file fs) = inl resp ->
  py_or (filename file) None <> None
  /\ file_read file <> []
  /\ response_segments resp <> []
  /\ List.map item_id (response_segments resp)
     = List.map Z.of_nat (seq 1 (List.length (response_segments resp)))
  /\ response_text resp
     = joined_with_space (List.map item_text (response_segments resp))
  /\ response_text resp <> [].
Proof.
  rewrite transcribe_json_outcome.
  destruct (py_or (filename file) None) as [name|]; [|discriminate].
  destruct (file_read file) as [|b data]; [discriminate|].
  destruct (_build_segments _ _) as [items|[msg| | |]] eqn:Hr;
    try discriminate.
  intro H. injection H as <-.
  unfold _build_segments in Hr.
  destruct (chunks _) as [segs|]; [|discriminate].
  destruct (normalize_returns _ _ Hr) as [Heq Hne].
  assert (Hclean : Forall (fun it => clean (item_text it)) items)
    by (rewrite Heq; apply emit_all_clean).
  destruct (response_text_clean items Hne Hclean) as [Htext Htne].
  change (response_segments (_segments_to_response items)) with items.
  repeat split; try discriminate; try assumption.
  rewrite <- (ids_from_seq _ 1%nat). rewrite Heq at 1.
  rewrite emit_all_ids, <- emit_all_length with (i := 1), <- Heq.
  reflexivity.
Qed.

Lemma transcribe_json_success_witness :
  fst (transcribe_json sample_pipe sample_tmpname sample_suffix
         sample_upload sample_fs)
  = inl (_segments_to_response scenario_segments)
  /\ response_text (_segments_to_response scenario_segments) <> [].
Proof.
  split; [reflexivity|].
  apply (transcribe_json_success sample_pipe sample_tmpname sample_suffix
           sample_upload sample_fs (_segments_to_response scenario_segments)).
  reflexivity.
Defined.

(** X18: when [transcribe] answers with a subtitle file, [transcribe_json]
    answers the same request with segments, and the body of the file is
    [_segments_to_srt] of exactly those segments; the media type is
    application/x-subrip and the only header names the stem of the upload
    (or "transcript") with the extension .srt. *)
Theorem transcribe_success
    (pipe : filesystem -> pystr -> pipe_result)
    (tmpname : filesystem -> pystr -> pystr)
    (path_suffix path_stem : pystr -> pystr)
    (file : UploadFile) (fs : filesystem) (resp : Response) :
  fst (transcribe pipe tmpname path_suffix path_stem file fs) = inl resp ->
  exists (name : pystr) (json : response),
    filename file = Some name
    /\ fst (transcribe_json pipe tmpname path_suffix file fs) = inl json
    /\ _segments_to_srt (response_segments json) = Return (body resp)
    /\ media_type resp = lit "application/x-subrip"
    /\ headers resp
       = [ (lit "Content-Disposition",
            content_disposition
              (if truthy (path_stem name) then path_stem name
               else lit "transcript")) ].
Proof.
  rewrite transcribe_outcome, transcribe_json_outcome.
  destruct (py_or (filename file) None) as [name|] eqn:Hname;
    [|discriminate].
  destruct (file_read file) as [|b data]; [discriminate|].
  unfold _run_transcription.
  destruct (_build_segments _ _) as [items|[msg| | |]]; cbn [bind];
    try discriminate.
  destruct (_segments_to_srt items) as [srt_content|e] eqn:Hsrt.
  - intro H. injection H as <-.
    exists name, (_segments_to_response items).
    destruct (py_or_some _ _ Hname) as [Hfile _].
    repeat split; assumption.
  - destruct (srt_raises _ _ Hsrt) as [-> | ->]; discriminate.
Qed.

Lemma transcribe_success_witness :
  fst (transcribe sample_pipe sample_tmpname sample_suffix sample_stem
         sample_upload sample_fs)
  = inl {| body := scenario_srt;
           media_type := lit "application/x-subrip";
           headers := [ (lit "Content-Disposition",
                         content_disposition (lit "talk")) ] |}
  /\ exists (name : pystr) (json : response),
       filename sample_upload = Some name
       /\ fst (transcribe_json sample_pipe sample_tmpname sample_suffix
                 sample_upload sample_fs) = inl json
       /\ _segments_to_srt (response_segments json) = Return scenario_srt
       /\ lit "application/x-subrip" = lit "application/x-subrip"
       /\ [ (lit "Content-Disposition", content_disposition (lit "talk")) ]
          = [ (lit "Content-Disposition",
               content_disposition
                 (if truthy (sample_stem name) then sample_stem name
                  else lit "transcript")) ].
Proof.
  split; [vm_compute; reflexivity|].
  apply (transcribe_success sample_pipe sample_tmpname sample_suffix
           sample_stem sample_upload sample_fs
           {| body := scenario_srt;
              media_type := lit "application/x-subrip";
              headers := [ (lit "Content-Disposition",
                            content_disposition (lit "talk")) ] |}).
  vm_compute. reflexivity.
Defined.

(** X19: the pipeline is handed the uploaded bytes: an endpoint whose
    pipeline answers from the content of the file at the path it is given
    has the outcome of the same endpoint with a pipeline that answers from
    the uploaded bytes directly. The file name, the temporary name and the
    other files play no part. *)
Theorem pipeline_reads_uploaded_bytes
    (asr : option bytes -> pipe_result)
    (tmpname : filesystem -> pystr -> pystr)
    (path_suffix path_stem : pystr -> pystr)
    (file : UploadFile) (fs : filesystem) :
  fst (transcribe_json (fun fs' path => asr (fs_read path fs'))
         tmpname path_suffix file fs)
  = fst (transcribe_json (fun _ _ => asr (Some (file_read file)))
           tmpname path_suffix file fs)
  /\ fst (transcribe (fun fs' path => asr (fs_read path fs'))
            tmpname path_suffix path_stem file fs)
     = fst (transcribe (fun _ _ => asr (Some (file_read file)))
              tmpname path_suffix path_stem file fs).
Proof.
  rewrite !transcribe_json_outcome, !transcribe_outcome.
  destruct (py_or (filename file) None) as [name|];
    [|split; reflexivity].
  unfold _run_transcription, _build_segments, upload_fs.
  rewrite !fs_read_written. split; reflexivity.
Qed.
